(** * batchprocessor: batching, retrying and persisting

    A shallow embedding of [batchprocessor.py]: the generator
    [BatchProcessor.get_batches], the retry loop of
    [BatchProcessor.process], the sink [BatchProcessor._save_to_file] and
    the decorator [batch_process], with the properties of the batch, retry
    and persistence loop stated over them.

    The input is a finite list.  A run of [process] is a function from the
    state of the processing function to the events it emits in order
    (prints, calls, sleeps, file writes), the state reached and either the
    list returned or the exception that reaches the caller: the
    [UnboundLocalError] of the interpreter, or what [time.sleep], [open] or
    [json.dump] raises, which nothing in [process] catches. *)

From Stdlib Require Import String Ascii DecimalString DecimalNat.
From Stdlib Require Import List ZArith Lia Bool Arith Sorted.
Import ListNotations.

Set Implicit Arguments.

(** ** The batcher *)

Section Batcher.

Variable Item : Type.

(** The body of [get_batches]: [batch] is the list under construction,
    [items] what is left of [self.iterable].  An item is appended, and the
    batch is yielded when [len(batch) == self.batch_size]; what remains at
    the end of the input is yielded when it is not empty.  The batches
    yielded are the elements of the resulting list, in order. *)
Fixpoint get_batches_from (batch_size : Z) (items batch : list Item)
  : list (list Item) :=
  match items with
  | [] => match batch with
          | [] => []
          | _ :: _ => [batch]
          end
  | item :: items' =>
      let batch := batch ++ [item] in
      if (Z.of_nat (length batch) =? batch_size)%Z
      then batch :: get_batches_from batch_size items' []
      else get_batches_from batch_size items' batch
  end.

Definition get_batches (batch_size : Z) (iterable : list Item)
  : list (list Item) :=
  get_batches_from batch_size iterable [].

End Batcher.

(** [ceil(L / sz)] on integers, for [sz > 0]. *)
Definition ceil_div (L sz : Z) : Z := ((L + sz - 1) / sz)%Z.

(** The length the last batch has when [T] items went into batches of
    size [sz]. *)
Definition last_length (T sz : Z) : Z :=
  if (T mod sz =? 0)%Z then sz else (T mod sz)%Z.

(** ** Paths and file names *)

Local Open Scope string_scope.

(** [s.rfind(c)]: the index of the last [c] in [s], [-1] when there is
    none.  [i] is the index of the head of [s], [found] the last index seen
    so far. *)
Fixpoint rfind_from (c : ascii) (s : string) (i found : Z) : Z :=
  match s with
  | EmptyString => found
  | String a s' =>
      rfind_from c s' (i + 1) (if Ascii.eqb a c then i else found)
  end.

Definition rfind (c : ascii) (s : string) : Z := rfind_from c s 0 (-1).

(** [os.path.splitext] is the library's [genericpath._splitext]:
<<
    sepIndex = p.rfind(sep)
    dotIndex = p.rfind(extsep)
    if dotIndex > sepIndex:
        # skip all leading dots
        filenameIndex = sepIndex + 1
        while filenameIndex < dotIndex:
            if p[filenameIndex:filenameIndex+1] != extsep:
                return p[:dotIndex], p[dotIndex:]
            filenameIndex += 1
    return p, p[:0]
>>
    [splitext_scan] is its [while] loop: at the first character before
    [dotIndex] that is not a dot the path is split at [dotIndex]; when
    there is none the extension is empty.  [fuel] is
    [dotIndex - filenameIndex]. *)
Fixpoint splitext_scan (p : string) (dotIndex filenameIndex fuel : nat)
  : string * string :=
  match fuel with
  | O => (p, "")
  | S fuel' =>
      if negb (String.eqb (substring filenameIndex 1 p) ".")
      then (substring 0 dotIndex p,
            substring dotIndex (String.length p - dotIndex) p)
      else splitext_scan p dotIndex (S filenameIndex) fuel'
  end.

(** [os.path.splitext] of a POSIX path ([sep = "/"], no [altsep],
    [extsep = "."]). *)
Definition splitext (p : string) : string * string :=
  let sepIndex := rfind "/" p in
  let dotIndex := rfind "." p in
  if (dotIndex >? sepIndex)%Z
  then splitext_scan p (Z.to_nat dotIndex) (Z.to_nat (sepIndex + 1))
         (Z.to_nat (dotIndex - (sepIndex + 1)))
  else (p, "").

(** [c in s]. *)
Fixpoint contains (c : ascii) (s : string) : bool :=
  match s with
  | EmptyString => false
  | String a s' => Ascii.eqb a c || contains c s'
  end.

(** Whether [s] is made of dots only. *)
Fixpoint all_dots (s : string) : bool :=
  match s with
  | EmptyString => true
  | String a s' => Ascii.eqb a "." && all_dots s'
  end.

(** The last component of a path, [p[p.rfind("/") + 1:]]. *)
Definition basename (p : string) : string :=
  let start := Z.to_nat (rfind "/" p + 1) in
  substring start (String.length p - start) p.

(** [str(n)] of a non-negative integer, as an f-string formats it. *)
Definition str (n : nat) : string := NilZero.string_of_uint (Nat.to_uint n).

(** The name of the file of batch [batch_number]:
    [f"{file_name}_batch{batch_number}{ext}"] after
    [file_name, ext = os.path.splitext(self.save_to_file)]. *)
Definition batch_file (save_to_file : string) (batch_number : nat) : string :=
  let (file_name, ext) := splitext save_to_file in
  file_name ++ "_batch" ++ str batch_number ++ ext.

(** The truth value of [self.save_to_file], an [Optional[str]]: [None] and
    the empty string are false. *)
Definition truthy (save_to_file : option string) : bool :=
  match save_to_file with
  | Some (String _ _) => true
  | _ => false
  end.

Local Close Scope string_scope.

(** ** Exceptions, outcomes and the events of a run *)

(** The exceptions of the model, all instances of [Exception]: what the
    processing function raises; what the interpreter raises when a local
    variable is read before it was assigned; and what the library raises:
    [json.dump] a [TypeError] for a value it cannot serialize, [open] an
    [OSError], [time.sleep] a [ValueError] for a negative delay.  (What
    [except Exception] lets through, [KeyboardInterrupt] and the like, is
    not modelled.) *)
Inductive exn : Type :=
| Exception (message : string)
| UnboundLocalError (name : string)
| TypeError (message : string)
| ValueError (message : string)
| OSError (message : string).

Inductive outcome (X : Type) : Type :=
| Returned (x : X)
| Raised (e : exn).

Arguments Returned {X} x.
Arguments Raised {X} e.

Definition is_returned {X} (o : outcome X) : bool :=
  match o with Returned _ => true | Raised _ => false end.

Definition is_raised {X} (o : outcome X) : bool :=
  match o with Returned _ => false | Raised _ => true end.

(** [range(n)] and [enumerate(l)]. *)
Definition range (n : Z) : list nat := seq 0 (Z.to_nat n).

Definition enumerate_from {X} (start : nat) (l : list X) : list (nat * X) :=
  combine (seq start (length l)) l.

Definition enumerate {X} (l : list X) : list (nat * X) := enumerate_from 0 l.

Section Processor.

(** Items and batch results are opaque ([Any]).  [World] is the state the
    processing function may read and change between calls (it may fail on
    one attempt and succeed on the next); the function does not change the
    batch it is passed.  [Delay] is the type of [retry_delay].
    [json_dump r] is the text [json.dump(r, f, indent=4)] writes when it
    can serialize [r]. *)
Variables Item Result World Delay : Type.
Variable json_dump : Result -> string.

(** What the library calls of [process] may raise, [None] standing for a
    call that succeeds: [open_error path] is the exception of
    [open(path, "w")] (an [OSError]: a missing directory, a refused
    permission), [dump_error path r] the exception of
    [json.dump(r, f, indent=4)] for the file [f] opened at [path] (a
    [TypeError] when [r] holds a value that JSON has no form for, an
    [OSError] when writing fails), [sleep_error delay] the exception of
    [time.sleep(delay)] (a [ValueError] for a negative delay), which
    depends on the delay alone.  A run opens a file at most once, so that
    one answer per path is all a run can see. *)
Record Platform : Type := {
  open_error : string -> option exn;
  dump_error : string -> Result -> option exn;
  sleep_error : Delay -> option exn
}.

Variable platform : Platform.

(** What is observable of a run, in order of occurrence.  [Call] and
    [Sleep] carry the index [i] of the batch being processed (the [i] of
    [enumerate]), and [Call] the attempt, so that properties can speak of
    the calls and delays of one batch.  [Sleep] is the call
    [time.sleep(delay)], whether it returns or raises.  [WriteFile] is a
    file opened and written in full; [DumpFailed] a file opened, hence
    created or emptied, in which [json.dump] raised before the end of the
    text. *)
Inductive event : Type :=
| PrintProcessing (batch_number attempt_number : nat)
| Call (i attempt : nat) (batch : list Item) (o : outcome Result)
| PrintError (e : exn) (delay : Delay)
| Sleep (i : nat) (delay : Delay)
| PrintFailed (batch_number : nat) (retries : Z)
| WriteFile (path text : string)
| DumpFailed (path : string)
| PrintSaved (batch_number : nat) (path : string)
| PrintComplete.

(** The attributes set by [BatchProcessor.__init__]. *)
Record BatchProcessor : Type := __init__ {
  iterable : list Item;
  batch_size : Z;
  progress : bool;
  save_to_file : option string;
  retries : Z;
  retry_delay : Delay
}.

(** The locals of [process] that outlive one iteration ([results], and
    [result], which is unbound until a call has returned), and the world
    of the processing function. *)
Record frame : Type := Frame {
  results : list Result;
  result : option Result;
  world : World
}.

(** A computation: from a frame to the events emitted, the frame reached
    and a value or the exception that ended it. *)
Record run (X : Type) : Type := Run {
  trace : list event;
  final : frame;
  value : outcome X
}.

Definition M (X : Type) : Type := frame -> run X.

Definition ret {X} (x : X) : M X :=
  fun s => {| trace := []; final := s; value := Returned x |}.

Definition raise {X} (e : exn) : M X :=
  fun s => {| trace := []; final := s; value := Raised e |}.

Definition bind {X Y} (m : M X) (k : X -> M Y) : M Y :=
  fun s =>
    let r := m s in
    match value r with
    | Returned x =>
        let r' := k x (final r) in
        {| trace := trace r ++ trace r';
           final := final r';
           value := value r' |}
    | Raised e => {| trace := trace r; final := final r; value := Raised e |}
    end.

Notation "x <- m ;; k" := (bind m (fun x => k))
  (at level 61, m at next level, right associativity).
Notation "m ;; k" := (bind m (fun _ => k))
  (at level 61, right associativity).

Definition emit (ev : event) : M unit :=
  fun s => {| trace := [ev]; final := s; value := Returned tt |}.

(** Reading the local [result]. *)
Definition read_result : M Result :=
  fun s =>
    match result s with
    | Some r => ret r s
    | None => raise (UnboundLocalError "result") s
    end.

(** [result = ...] and [results.append(result)]. *)
Definition assign_result (r : Result) : M unit :=
  fun s => ret tt {| results := results s; result := Some r;
                     world := world s |}.

Definition append_results (r : Result) : M unit :=
  fun s => ret tt {| results := results s ++ [r]; result := result s;
                     world := world s |}.

Definition read_results : M (list Result) :=
  fun s => ret (results s) s.

Definition func_type : Type := World -> list Item -> outcome Result * World.

(** [func(batch, *args, **kwargs)], with what it returned or raised. *)
Definition call (func : func_type) (i attempt : nat) (batch : list Item)
  : M (outcome Result) :=
  fun s =>
    let (o, w) := func (world s) batch in
    {| trace := [Call i attempt batch o];
       final := {| results := results s; result := result s; world := w |};
       value := Returned o |}.

(** [tqdm(batches, desc=...)] yields the batches it is given; the bar it
    draws is not part of the model. *)
Definition tqdm (batches : list (list Item)) : list (list Item) := batches.

(** [_save_to_file]: [with open(batch_file, "w") as f] opens the file of
    the batch, and an exception of [open] ends the method; then
    [json.dump(result, f, indent=4)] writes into the file, and its exception
    ends the method with the file left as it is; then the path is printed.
    Nothing catches these exceptions. *)
Definition _save_to_file (self : BatchProcessor) (batch_number : nat)
    (r : Result) : M unit :=
  match save_to_file self with
  | Some path =>
      let file := batch_file path batch_number in
      match open_error platform file with
      | Some e => raise e
      | None =>
          match dump_error platform file r with
          | Some e => emit (DumpFailed file) ;; raise e
          | None =>
              emit (WriteFile file (json_dump r)) ;;
              emit (PrintSaved batch_number file)
          end
      end
  | None => raise (TypeError "expected str, bytes or os.PathLike object")
  end.

(** [time.sleep(delay)] while batch [i] is processed. *)
Definition time_sleep (i : nat) (delay : Delay) : M unit :=
  emit (Sleep i delay) ;;
  match sleep_error platform delay with
  | Some e => raise e
  | None => ret tt
  end.

(** The retry loop [for attempt in range(self.retries + 1)] over the
    attempts left; the value is [success].  The handler of
    [except Exception] prints and sleeps; an exception of [time.sleep] is
    raised inside the handler and leaves the loop. *)
Fixpoint retry_loop (self : BatchProcessor) (func : func_type) (i : nat)
    (batch : list Item) (attempts : list nat) : M bool :=
  match attempts with
  | [] => ret false
  | attempt :: attempts' =>
      emit (PrintProcessing (i + 1) (attempt + 1)) ;;
      o <- call func i attempt batch ;;
      match o with
      | Returned r =>
          assign_result r ;;
          append_results r ;;
          ret true
      | Raised e =>
          emit (PrintError e (retry_delay self)) ;;
          time_sleep i (retry_delay self) ;;
          retry_loop self func i batch attempts'
      end
  end.

(** The end of the loop body, outside the [try]:
    [if self.save_to_file: self._save_to_file(i + 1, result)]. *)
Definition persist (self : BatchProcessor) (i : nat) : M unit :=
  if truthy (save_to_file self)
  then r <- read_result ;; _save_to_file self (i + 1) r
  else ret tt.

(** The body of [for i, batch in enumerate(batches)]. *)
Definition process_batch (self : BatchProcessor) (func : func_type)
    (i : nat) (batch : list Item) : M unit :=
  success <- retry_loop self func i batch (range (retries self + 1)) ;;
  (if negb success
   then emit (PrintFailed (i + 1) (retries self))
   else ret tt) ;;
  persist self i.

Fixpoint process_loop (self : BatchProcessor) (func : func_type)
    (batches : list (nat * list Item)) : M unit :=
  match batches with
  | [] => ret tt
  | (i, batch) :: batches' =>
      process_batch self func i batch ;;
      process_loop self func batches'
  end.

(** [BatchProcessor.process], started in the world [w] of [func]. *)
Definition process (self : BatchProcessor) (func : func_type) (w : World)
  : run (list Result) :=
  (let batches := get_batches (batch_size self) (iterable self) in
   let batches := if progress self then tqdm batches else batches in
   process_loop self func (enumerate batches) ;;
   emit PrintComplete ;;
   read_results)
    {| results := []; result := None; world := w |}.

(** The decorator [batch_process]: [batch_process(...)] is [decorator],
    [decorator(func)] is [wrapper], and [wrapper(iterable)] builds a
    processor over its argument and calls [process] with [func]. *)
Definition batch_process (batch_size : Z) (progress : bool)
    (save_to_file : option string) (retries : Z) (retry_delay : Delay)
  : func_type -> list Item -> World -> run (list Result) :=
  let decorator (func : func_type) :=
    let wrapper (iterable : list Item) :=
      let processor :=
        __init__ iterable batch_size progress save_to_file retries
          retry_delay in
      process processor func in
    wrapper in
  decorator.

(** *** Reading a trace *)

(** A call of the processing function: the index of the batch, the attempt,
    the batch passed and what the call returned or raised. *)
Record invocation : Type := Invocation {
  index : nat;
  attempt : nat;
  argument : list Item;
  outcome_of : outcome Result
}.

(** All the calls of a trace, in order. *)
Definition invocations (t : list event) : list invocation :=
  flat_map (fun ev => match ev with
                      | Call i a b o => [Invocation i a b o]
                      | _ => []
                      end) t.

(** The calls of [time.sleep], each with the index of its batch; when the
    delay is accepted they are the retry delays that elapsed. *)
Definition sleeps (t : list event) : list (nat * Delay) :=
  flat_map (fun ev => match ev with
                      | Sleep i d => [(i, d)]
                      | _ => []
                      end) t.

(** The batch numbers reported as failed, with the retry count reported. *)
Definition failures (t : list event) : list (nat * Z) :=
  flat_map (fun ev => match ev with
                      | PrintFailed n r => [(n, r)]
                      | _ => []
                      end) t.

(** The files written in full, with their text. *)
Definition writes (t : list event) : list (string * string) :=
  flat_map (fun ev => match ev with
                      | WriteFile path text => [(path, text)]
                      | _ => []
                      end) t.

(** The calls of a retry loop on batch [i] that made the attempts
    [attempts] with the outcomes [outs]. *)
Definition attempt_calls (i : nat) (batch : list Item) (attempts : list nat)
    (outs : list (outcome Result)) : list invocation :=
  map (fun oa => Invocation i (snd oa) batch (fst oa)) (combine outs attempts).

(** What saving [r] as the result of batch number [batch_number] emits
    and how it ends, for the sink [path]. *)
Definition save_events (path : string) (batch_number : nat) (r : Result)
  : list event :=
  let file := batch_file path batch_number in
  match open_error platform file, dump_error platform file r with
  | Some _, _ => []
  | None, Some _ => [DumpFailed file]
  | None, None => [WriteFile file (json_dump r); PrintSaved batch_number file]
  end.

Definition save_value (path : string) (batch_number : nat) (r : Result)
  : outcome unit :=
  match open_error platform (batch_file path batch_number),
        dump_error platform (batch_file path batch_number) r with
  | Some e, _ => Raised e
  | None, Some e => Raised e
  | None, None => Returned tt
  end.

(** What the persistence step of batch [i] emits and how it ends when the
    local [result] holds [res] ([None] when it is unbound). *)
Definition persist_events (self : BatchProcessor) (i : nat)
    (res : option Result) : list event :=
  match save_to_file self, res with
  | Some path, Some r =>
      if truthy (save_to_file self) then save_events path (i + 1) r else []
  | _, _ => []
  end.

Definition persist_value (self : BatchProcessor) (i : nat)
    (res : option Result) : outcome unit :=
  match save_to_file self with
  | Some path =>
      if truthy (save_to_file self)
      then match res with
           | Some r => save_value path (i + 1) r
           | None => Raised (UnboundLocalError "result")
           end
      else Returned tt
  | None => Returned tt
  end.

(** What follows the retry loop in the body of the loop over the batches,
    [rl] being the run of the retry loop on batch [i]: the failure report
    when [success] is false, then the persistence step; nothing when the
    retry loop was left by an exception. *)
Definition batch_tail (self : BatchProcessor) (i : nat) (rl : run bool)
  : list event :=
  match value rl with
  | Returned success =>
      (if success then [] else [PrintFailed (i + 1) (retries self)])
      ++ persist_events self i (result (final rl))
  | Raised _ => []
  end.

Definition batch_value (self : BatchProcessor) (i : nat) (rl : run bool)
  : outcome unit :=
  match value rl with
  | Returned _ => persist_value self i (result (final rl))
  | Raised e => Raised e
  end.

(** The assumptions on the platform: [time.sleep] accepts the configured
    delay; every file can be opened for writing and every result can be
    serialized; no sink is configured, or every write succeeds. *)
Definition sleep_accepted (self : BatchProcessor) : Prop :=
  sleep_error platform (retry_delay self) = None.

Definition writes_succeed : Prop :=
  (forall path, open_error platform path = None)
  /\ (forall path r, dump_error platform path r = None).

Definition sink_reliable (self : BatchProcessor) : Prop :=
  truthy (save_to_file self) = false \/ writes_succeed.

(** The calls of a run in which every batch is processed by a first attempt
    that returns: one call per batch, in order. *)
Definition first_attempt_calls (start : nat) (batches : list (list Item))
    (rs : list Result) : list invocation :=
  map (fun ibr => Invocation (fst ibr) 0 (fst (snd ibr))
                    (Returned (snd (snd ibr))))
    (enumerate_from start (combine batches rs)).

(** The calls made for batch [i], and the delays that elapsed for it. *)
Definition calls_of (i : nat) (t : list event) : list invocation :=
  filter (fun c => Nat.eqb (index c) i) (invocations t).


(** Batch [i] succeeded in a trace when one of its calls returned. *)
Definition succeeded (i : nat) (t : list event) : bool :=
  existsb (fun c => is_returned (outcome_of c)) (calls_of i t).

(** *** Describing a run *)

(** How a retry loop over [attempts] started in the frame [s] ends, [outs]
    being the outcomes of its calls: with a call that returned after calls
    that raised, or with every attempt made and failed, or, when
    [time.sleep] refuses the delay, with its exception after the first call
    that raised. *)
Inductive retry_end (self : BatchProcessor) (s : frame)
    (attempts : list nat) (outs : list (outcome Result)) (r : run bool)
  : Prop :=
| retry_success (es : list exn) (r0 : Result) :
    outs = map Raised es ++ [Returned r0] ->
    value r = Returned true ->
    results (final r) = results s ++ [r0] ->
    result (final r) = Some r0 ->
    retry_end self s attempts outs r
| retry_exhausted (es : list exn) :
    outs = map Raised es ->
    length outs = length attempts ->
    value r = Returned false ->
    results (final r) = results s ->
    result (final r) = result s ->
    retry_end self s attempts outs r
| retry_aborted (e0 e : exn) :
    outs = [Raised e0] ->
    sleep_error platform (retry_delay self) = Some e ->
    value r = Raised e ->
    results (final r) = results s ->
    result (final r) = result s ->
    retry_end self s attempts outs r.

(** How the processing of batch [i] started in the frame [s] ends, [outs]
    being the outcomes of its calls. *)
Inductive batch_end (self : BatchProcessor) (i : nat) (s : frame)
    (outs : list (outcome Result)) (r : run unit) : Prop :=
| batch_succeeded (es : list exn) (r0 : Result) :
    outs = map Raised es ++ [Returned r0] ->
    results (final r) = results s ++ [r0] ->
    result (final r) = Some r0 ->
    failures (trace r) = [] ->
    writes (trace r) = writes (persist_events self i (Some r0)) ->
    value r = persist_value self i (Some r0) ->
    batch_end self i s outs r
| batch_exhausted (es : list exn) :
    outs = map Raised es ->
    length outs = length (range (retries self + 1)) ->
    results (final r) = results s ->
    result (final r) = result s ->
    failures (trace r) = [(i + 1, retries self)] ->
    writes (trace r) = writes (persist_events self i (result s)) ->
    value r = persist_value self i (result s) ->
    batch_end self i s outs r
| batch_aborted (e0 e : exn) :
    outs = [Raised e0] ->
    sleep_error platform (retry_delay self) = Some e ->
    results (final r) = results s ->
    result (final r) = result s ->
    failures (trace r) = [] ->
    writes (trace r) = [] ->
    value r = Raised e ->
    batch_end self i s outs r.

(** A frame from which the persistence step cannot fail: nothing is to be
    persisted, or [result] is bound and every write succeeds. *)
Definition persist_safe (self : BatchProcessor) (s : frame) : Prop :=
  truthy (save_to_file self) = false
  \/ (result s <> None /\ writes_succeed).

(** The frame [process] starts from and the loop it runs. *)
Definition start (w : World) : frame :=
  {| results := []; result := None; world := w |}.

Definition main_loop (self : BatchProcessor) (func : func_type) (w : World)
  : run unit :=
  process_loop self func
    (enumerate (get_batches (batch_size self) (iterable self))) (start w).

(** The calls that returned, in order: the index of the batch and the
    result. *)
Definition returns (t : list event) : list (nat * Result) :=
  flat_map (fun c => match outcome_of c with
                     | Returned x => [(index c, x)]
                     | Raised _ => []
                     end) (invocations t).

(** The diagnostics printed: the announcements of attempts (batch number
    and attempt number, both counted from 1) and the error reports (the
    exception and the delay announced). *)
Definition announcements (t : list event) : list (nat * nat) :=
  flat_map (fun ev => match ev with
                      | PrintProcessing n a => [(n, a)]
                      | _ => []
                      end) t.

Definition error_reports (t : list event) : list (exn * Delay) :=
  flat_map (fun ev => match ev with
                      | PrintError e d => [(e, d)]
                      | _ => []
                      end) t.

(** What is announced before a call, and what is reported after it. *)
Definition announced (c : invocation) : nat * nat :=
  (index c + 1, attempt c + 1).

Definition reported (self : BatchProcessor) (c : invocation)
  : list (exn * Delay) :=
  match outcome_of c with
  | Returned _ => []
  | Raised e => [(e, retry_delay self)]
  end.

(** The result the local [result] holds after the events [t] of a run
    started with [result] unbound: what the last call that returned
    returned, if any. *)
Definition last_result (t : list event) : option Result :=
  last (map (fun ix => Some (snd ix)) (returns t)) None.

End Processor.

Arguments PrintProcessing {Item Result Delay} batch_number attempt_number.
Arguments PrintError {Item Result Delay} e delay.
Arguments Sleep {Item Result Delay} i delay.
Arguments PrintFailed {Item Result Delay} batch_number retries.
Arguments WriteFile {Item Result Delay} path text.
Arguments DumpFailed {Item Result Delay} path.
Arguments PrintSaved {Item Result Delay} batch_number path.
Arguments PrintComplete {Item Result Delay}.
Arguments Call {Item Result Delay} i attempt batch o.
Arguments start {Result World} w.
Arguments announced {Item Result} c.
Arguments reported {Item Result Delay} self c.

(** ** Sample platforms and processing functions *)

(** A platform on which no library call fails: every result can be
    serialized, every file can be opened, every delay is accepted. *)
Definition reliable {Result Delay : Type} : Platform Result Delay :=
  {| open_error := fun _ => None;
     dump_error := fun _ _ => None;
     sleep_error := fun _ => None |}.

(** A platform with delays in seconds and a working directory that has no
    subdirectory: [open] fails for a path that goes through a directory,
    [time.sleep] refuses a negative delay, and [json.dump] raises what
    [json_error] says. *)
Definition posix {Result : Type} (json_error : Result -> option exn)
  : Platform Result Z :=
  {| open_error := fun path =>
       if contains "/" path
       then Some (OSError "No such file or directory")
       else None;
     dump_error := fun _ r => json_error r;
     sleep_error := fun delay =>
       if (delay <? 0)%Z
       then Some (ValueError "sleep length must be non-negative")
       else None |}.

(** Batches of naturals, integer results; [json.dump] of an integer writes
    its decimal digits, whatever the indentation, and never raises. *)
Definition json_dump_int (z : Z) : string :=
  NilZero.string_of_int (Z.to_int z).

Definition json_error_int (z : Z) : option exn := None.

(** Results that are integers or sets: [json.dump] raises [TypeError] for
    a set, before it writes anything. *)
Inductive py_value : Type :=
| PyInt (n : Z)
| PySet (elements : list nat).

Definition json_dump_py (v : py_value) : string :=
  match v with
  | PyInt n => json_dump_int n
  | PySet _ => EmptyString
  end.

Definition json_error_py (v : py_value) : option exn :=
  match v with
  | PyInt _ => None
  | PySet _ => Some (TypeError "Object of type set is not JSON serializable")
  end.

(** A function that returns the sum of its batch. *)
Definition sum_batch : func_type nat Z unit :=
  fun w batch => (Returned (Z.of_nat (list_sum batch)), w).

(** A function that raises on the batch [bad], at every call, and returns
    the sum of any other batch. *)
Definition fail_on (bad : list nat) : func_type nat Z unit :=
  fun w batch =>
    if list_eq_dec Nat.eq_dec batch bad
    then (Raised (Exception "boom"), w)
    else (Returned (Z.of_nat (list_sum batch)), w).

(** A function that counts its calls, raises at the first and returns the
    sum of its batch from the second on. *)
Definition flaky : func_type nat Z nat :=
  fun calls batch =>
    (if Nat.eqb calls 0
     then Raised (Exception "boom")
     else Returned (Z.of_nat (list_sum batch)),
     S calls).


(** A function that returns the set of the items of its batch,
    [set(batch)]. *)
Definition as_set : func_type nat py_value unit :=
  fun w batch => (Returned (PySet batch), w).

(** ** The caller [example.py] *)

(** The first [process_batch] of [example.py]: it prints its batch and
    returns a dictionary with every item incremented and the status
    [success].  Items are integers; [World] is what was printed so far, one
    batch per line. *)
Module ExamplePy.

Record result_dict : Type := ResultDict {
  processed : list Z;
  status : string
}.

Definition process_batch : func_type Z result_dict (list (list Z)) :=
  fun printed batch =>
    let result := map (fun i => (i + 1)%Z) batch in
    (Returned {| processed := result; status := "success" |},
     printed ++ [batch]).

End ExamplePy.

(** ** The batches produced *)

Section BatcherFacts.

Variable Item : Type.
Implicit Types (items batch : list Item) (sz : Z).

Lemma get_batches_from_concat sz items batch :
  concat (get_batches_from sz items batch) = batch ++ items.
Proof.
  revert batch; induction items as [|x items IH]; intros batch; simpl.
  - destruct batch; simpl; now rewrite ?app_nil_r.
  - destruct (_ =? _)%Z; simpl; rewrite IH; simpl;
      now rewrite <- ?app_assoc.
Qed.

Lemma ceil_div_small sz n : (0 < n < sz)%Z -> ceil_div n sz = 1%Z.
Proof.
  intros H; unfold ceil_div.
  symmetry; apply Z.div_unique with (r := (n - 1)%Z); lia.
Qed.

Lemma ceil_div_0 sz : (0 < sz)%Z -> ceil_div 0 sz = 0%Z.
Proof.
  intros H; unfold ceil_div; apply Z.div_small; lia.
Qed.

Lemma ceil_div_step sz n : (0 < sz)%Z ->
  ceil_div (sz + n) sz = (1 + ceil_div n sz)%Z.
Proof.
  intros H; unfold ceil_div.
  replace (sz + n + sz - 1)%Z with ((n + sz - 1) + 1 * sz)%Z by lia.
  rewrite Z.div_add by lia; lia.
Qed.

Lemma get_batches_from_length sz items batch :
  (0 < sz)%Z -> (Z.of_nat (length batch) < sz)%Z ->
  Z.of_nat (length (get_batches_from sz items batch))
  = ceil_div (Z.of_nat (length batch + length items)) sz.
Proof.
  intros HS; revert batch; induction items as [|x items IH];
    intros batch Hb; simpl.
  - rewrite Nat.add_0_r. destruct batch as [|y batch]; simpl length.
    + now rewrite ceil_div_0.
    + rewrite ceil_div_small; [reflexivity|]. simpl length in Hb; lia.
  - assert (Hlen : length (batch ++ [x]) = S (length batch))
      by (rewrite length_app; simpl; lia).
    destruct (Z.eqb_spec (Z.of_nat (length (batch ++ [x]))) sz) as [E|E];
      rewrite Hlen in E.
    + simpl length. rewrite Nat2Z.inj_succ, (IH []) by (simpl; lia).
      simpl length.
      replace (Z.of_nat (length batch + S (length items)))
        with (sz + Z.of_nat (length items))%Z by lia.
      rewrite ceil_div_step by lia. rewrite Nat.add_0_l; lia.
    + rewrite IH by lia. f_equal; lia.
Qed.

Lemma ceil_div_spec L sz : (0 < sz)%Z ->
  ((ceil_div L sz - 1) * sz < L <= ceil_div L sz * sz)%Z.
Proof.
  intros H; unfold ceil_div.
  pose proof (Z.div_mod (L + sz - 1) sz ltac:(lia)) as E.
  pose proof (Z.mod_pos_bound (L + sz - 1) sz H) as B. nia.
Qed.

Lemma last_length_small T sz : (0 < T < sz)%Z -> last_length T sz = T.
Proof.
  intros H; unfold last_length. rewrite Z.mod_small by lia.
  destruct (Z.eqb_spec T 0); lia.
Qed.

Lemma last_length_step T sz : (0 < sz)%Z ->
  last_length (sz + T) sz = last_length T sz.
Proof.
  intros H; unfold last_length.
  replace (sz + T)%Z with (T + 1 * sz)%Z by lia.
  now rewrite Z.mod_add by lia.
Qed.

Lemma last_length_full sz : (0 < sz)%Z -> last_length sz sz = sz.
Proof.
  intros H; unfold last_length. now rewrite Z.mod_same, Z.eqb_refl by lia.
Qed.

Lemma get_batches_from_lengths sz items batch :
  (0 < sz)%Z -> (Z.of_nat (length batch) < sz)%Z ->
  let bs := get_batches_from sz items batch in
  (forall i, S i < length bs -> Z.of_nat (length (nth i bs [])) = sz)
  /\ (bs <> [] ->
      Z.of_nat (length (last bs []))
      = last_length (Z.of_nat (length batch + length items)) sz).
Proof.
  intros Hsz; revert batch; induction items as [|x items IH];
    intros batch Hb; simpl.
  - destruct batch as [|y batch]; simpl.
    + split; [intros i Hi; lia | congruence].
    + split; [intros i Hi; lia | intros _].
      rewrite last_length_small; simpl in *; lia.
  - assert (Hlen : length (batch ++ [x]) = S (length batch))
      by (rewrite length_app; simpl; lia).
    destruct (Z.eqb_spec (Z.of_nat (length (batch ++ [x]))) sz) as [E|E].
    + destruct (IH [] ltac:(simpl; lia)) as [IH1 IH2]. split.
      * intros [|i] Hi; [exact E|]. simpl in Hi |- *. apply IH1; lia.
      * intros _.
        replace (Z.of_nat (length batch + S (length items)))
          with (sz + Z.of_nat (length items))%Z by lia.
        destruct (get_batches_from sz items []) as [|b bs] eqn:Ebs.
        -- simpl. destruct items as [|z items].
           ++ simpl. replace (sz + 0)%Z with sz by lia.
              now rewrite last_length_full.
           ++ exfalso.
              pose proof (get_batches_from_concat sz (z :: items) [])
                as Hc.
              rewrite Ebs in Hc; discriminate.
        -- rewrite last_length_step by lia.
           change (last ((batch ++ [x]) :: b :: bs) [])
             with (last (b :: bs) []).
           apply IH2; congruence.
    + rewrite Hlen in E.
      destruct (IH (batch ++ [x]) ltac:(lia)) as [IH1 IH2]. split.
      * exact IH1.
      * intros Hne. rewrite (IH2 Hne). f_equal; lia.
Qed.

Lemma get_batches_from_nonpositive sz items batch :
  (sz <= 0)%Z ->
  get_batches_from sz items batch
  = match batch ++ items with [] => [] | _ :: _ => [batch ++ items] end.
Proof.
  intros Hsz; revert batch; induction items as [|x items IH]; intros batch.
  - simpl. rewrite app_nil_r. now destruct batch.
  - simpl. destruct (Z.eqb_spec (Z.of_nat (length (batch ++ [x]))) sz) as [E|E].
    + rewrite length_app in E. simpl in E. lia.
    + rewrite IH, <- app_assoc. reflexivity.
Qed.

Lemma get_batches_from_nonempty sz items batch :
  Forall (fun b => b <> []) (get_batches_from sz items batch).
Proof.
  revert batch; induction items as [|x items IH]; intros batch; simpl.
  - destruct batch; repeat constructor. discriminate.
  - destruct (_ =? _)%Z; [constructor|]; try apply IH.
    now destruct batch.
Qed.

Lemma get_batches_from_app sz items items' batch :
  (0 < sz)%Z -> (Z.of_nat (length batch) < sz)%Z ->
  (Z.of_nat (length batch + length items) mod sz = 0)%Z ->
  get_batches_from sz (items ++ items') batch
  = get_batches_from sz items batch ++ get_batches_from sz items' [].
Proof.
  intros Hsz; revert batch; induction items as [|x items IH];
    intros batch Hb Hm.
  - rewrite Nat.add_0_r, Z.mod_small in Hm by lia.
    destruct batch; [reflexivity | simpl in Hm; lia].
  - simpl.
    assert (Hlen : length (batch ++ [x]) = S (length batch))
      by (rewrite length_app; simpl; lia).
    destruct (Z.eqb_spec (Z.of_nat (length (batch ++ [x]))) sz) as [E|E];
      rewrite Hlen in E.
    + simpl. f_equal. apply IH; [simpl; lia|]. simpl.
      replace (Z.of_nat (length batch + length (x :: items)))
        with (Z.of_nat (length items) + 1 * sz)%Z in Hm
        by (simpl length; lia).
      now rewrite Z.mod_add in Hm by lia.
    + apply IH; [lia|]. rewrite Hlen.
      now replace (S (length batch) + length items)
        with (length batch + length (x :: items)) by (simpl; lia).
Qed.

Lemma get_batches_from_single sz items batch :
  (Z.of_nat (length batch + length items) <= sz)%Z ->
  batch ++ items <> [] ->
  get_batches_from sz items batch = [batch ++ items].
Proof.
  revert batch; induction items as [|x items IH]; intros batch Hl Hne.
  - simpl. rewrite app_nil_r in *. now destruct batch.
  - simpl.
    assert (Hlen : length (batch ++ [x]) = S (length batch))
      by (rewrite length_app; simpl; lia).
    destruct (Z.eqb_spec (Z.of_nat (length (batch ++ [x]))) sz) as [E|E];
      rewrite Hlen in E.
    + destruct items as [|y items]; [|simpl in Hl; lia].
      reflexivity.
    + rewrite IH.
      * now rewrite <- app_assoc.
      * rewrite Hlen. simpl in Hl. lia.
      * now destruct batch.
Qed.

End BatcherFacts.

(** C3. For an input of length [L] and a batch size [sz > 0],
    [get_batches] yields [ceil(L / sz)] batches; every batch but the last
    has [sz] items; the last has [L mod sz] items when that is not zero and
    [sz] otherwise; the batches hold [L] items in all; and their
    concatenation, in order, is the input. *)
Theorem get_batches_segmentation (Item : Type) (sz : Z) (items : list Item) :
  (0 < sz)%Z ->
  let bs := get_batches sz items in
  let L := Z.of_nat (length items) in
  Z.of_nat (length bs) = ceil_div L sz
  /\ (forall i, S i < length bs -> Z.of_nat (length (nth i bs [])) = sz)
  /\ (bs <> [] ->
      Z.of_nat (length (last bs []))
      = if (L mod sz =? 0)%Z then sz else (L mod sz)%Z)
  /\ Z.of_nat (list_sum (map (@length Item) bs)) = L
  /\ concat bs = items.
Proof.
  intros Hsz bs L. unfold bs, get_batches.
  pose proof (get_batches_from_lengths items [] Hsz ltac:(simpl; lia))
    as [H1 H2].
  pose proof (get_batches_from_concat sz items []) as Hc. simpl in Hc.
  repeat split.
  - now rewrite get_batches_from_length by (simpl; lia).
  - exact H1.
  - exact H2.
  - unfold L. rewrite <- Hc at 2. f_equal.
    generalize (get_batches_from sz items []).
    induction l as [|b l IHl]; simpl; [reflexivity|].
    now rewrite length_app, IHl.
  - exact Hc.
Qed.

(** The example of the repository: 22 items in batches of 5. *)
Lemma get_batches_segmentation_witness :
  let items := seq 1 22 in
  let bs := get_batches 5 items in
  (0 < 5)%Z
  /\ Z.of_nat (length bs) = ceil_div 22 5
  /\ map (@length nat) bs = [5; 5; 5; 5; 2]
  /\ concat bs = items.
Proof.
  split; [lia|].
  pose proof (@get_batches_segmentation nat 5 (seq 1 22) ltac:(lia))
    as [Hn [_ [_ [_ Hc]]]].
  split; [exact Hn|]. split; [reflexivity | exact Hc].
Defined.

(** Whatever the batch size, positive or not, batching loses, repeats and
    reorders nothing, and never yields an empty batch. *)
Theorem get_batches_any_size (Item : Type) (sz : Z) (items : list Item) :
  concat (get_batches sz items) = items
  /\ Forall (fun b => b <> []) (get_batches sz items).
Proof.
  split.
  - apply (get_batches_from_concat sz items []).
  - apply get_batches_from_nonempty.
Qed.

(** Batching commutes with concatenation at a batch boundary: when the
    length of the first part is a multiple of the batch size, the batches
    of the whole are the batches of the first part followed by those of
    the second. *)
Theorem get_batches_app (Item : Type) (sz : Z) (items items' : list Item) :
  (0 < sz)%Z ->
  (Z.of_nat (length items) mod sz = 0)%Z ->
  get_batches sz (items ++ items')
  = get_batches sz items ++ get_batches sz items'.
Proof.
  intros Hsz Hm. unfold get_batches.
  apply get_batches_from_app; [exact Hsz | simpl; lia | exact Hm].
Qed.

Lemma get_batches_app_witness :
  (0 < 2)%Z
  /\ (Z.of_nat (length [1; 2; 3; 4]) mod 2 = 0)%Z
  /\ get_batches 2 ([1; 2; 3; 4] ++ [5; 6; 7])
     = get_batches 2 [1; 2; 3; 4] ++ get_batches 2 [5; 6; 7].
Proof.
  assert (H0 : (0 < 2)%Z) by lia.
  assert (H1 : (Z.of_nat (length [1; 2; 3; 4]) mod 2 = 0)%Z) by reflexivity.
  split; [exact H0|]. split; [exact H1|].
  exact (@get_batches_app nat 2 [1; 2; 3; 4] [5; 6; 7] H0 H1).
Defined.

(** A batch size that is at least the length of a non-empty input gives the
    input back as one batch. *)
Theorem get_batches_single (Item : Type) (sz : Z) (items : list Item) :
  items <> [] ->
  (Z.of_nat (length items) <= sz)%Z ->
  get_batches sz items = [items].
Proof.
  intros Hne Hl. unfold get_batches.
  now rewrite get_batches_from_single.
Qed.

Lemma get_batches_single_witness :
  [1; 2; 3] <> []
  /\ (Z.of_nat (length [1; 2; 3]) <= 3)%Z
  /\ get_batches 3 [1; 2; 3] = [[1; 2; 3]].
Proof.
  assert (H0 : [1; 2; 3] <> []) by discriminate.
  assert (H1 : (Z.of_nat (length [1; 2; 3]) <= 3)%Z) by (simpl; lia).
  split; [exact H0|]. split; [exact H1|].
  exact (@get_batches_single nat 3 [1; 2; 3] H0 H1).
Defined.

Unset Implicit Arguments.

(** ** Splitting a path *)

Section PathFacts.

Local Open Scope string_scope.

Implicit Types (s p name ext : string) (c : ascii).

Lemma length_append s1 s2 :
  String.length (s1 ++ s2) = String.length s1 + String.length s2.
Proof. induction s1 as [|a s1 IH]; simpl; congruence. Qed.

Lemma substring_prefix s1 s2 :
  substring 0 (String.length s1) (s1 ++ s2) = s1.
Proof.
  induction s1 as [|a s1 IH]; simpl.
  - now destruct s2.
  - now rewrite IH.
Qed.

Lemma substring_all s : substring 0 (String.length s) s = s.
Proof. induction s as [|a s IH]; simpl; congruence. Qed.

Lemma substring_suffix s1 s2 :
  substring (String.length s1) (String.length s2) (s1 ++ s2) = s2.
Proof.
  induction s1 as [|a s1 IH]; simpl.
  - apply substring_all.
  - exact IH.
Qed.

Lemma substring_append_left s1 s2 n m :
  n + m <= String.length s1 ->
  substring n m (s1 ++ s2) = substring n m s1.
Proof.
  revert n m; induction s1 as [|a s1 IH]; intros n m H; simpl in H.
  - assert (n = 0) by lia. assert (m = 0) by lia. subst. simpl.
    now destruct s2.
  - destruct n as [|n]; simpl.
    + destruct m as [|m]; [reflexivity|]. simpl. f_equal.
      apply IH. simpl. lia.
    + apply IH. lia.
Qed.

Lemma rfind_from_append c s1 s2 i found :
  rfind_from c (s1 ++ s2) i found
  = rfind_from c s2 (i + Z.of_nat (String.length s1))
      (rfind_from c s1 i found).
Proof.
  revert i found; induction s1 as [|a s1 IH]; intros i found; simpl.
  - now rewrite Z.add_0_r.
  - rewrite IH. f_equal. lia.
Qed.

Lemma rfind_from_absent c s i found :
  contains c s = false -> rfind_from c s i found = found.
Proof.
  revert i found; induction s as [|a s IH]; intros i found H; simpl in *.
  - reflexivity.
  - apply orb_false_iff in H. destruct H as [-> H]. now apply IH.
Qed.

Lemma rfind_from_bound c s i found :
  (found < i)%Z ->
  (found <= rfind_from c s i found < i + Z.of_nat (String.length s))%Z.
Proof.
  revert i found; induction s as [|a s IH]; intros i found H; simpl.
  - lia.
  - destruct (Ascii.eqb a c).
    + specialize (IH (i + 1)%Z i ltac:(lia)). lia.
    + specialize (IH (i + 1)%Z found ltac:(lia)). lia.
Qed.

Lemma rfind_bound c s : (-1 <= rfind c s < Z.of_nat (String.length s))%Z.
Proof. unfold rfind. apply (rfind_from_bound c s 0 (-1)). lia. Qed.

(** The scan splits the path unless it meets dots only. *)
Lemma splitext_scan_spec p dotIndex filenameIndex fuel :
  filenameIndex + fuel <= String.length p ->
  splitext_scan p dotIndex filenameIndex fuel
  = if all_dots (substring filenameIndex fuel p)
    then (p, "")
    else (substring 0 dotIndex p,
          substring dotIndex (String.length p - dotIndex) p).
Proof.
  revert p filenameIndex.
  assert (Hhead : forall p n m, n + S m <= String.length p ->
            exists a, substring n 1 p = String a ""
                      /\ substring n (S m) p
                         = String a (substring (S n) m p)).
  { induction p as [|a p IH]; intros n m H; simpl in H; [lia|].
    destruct n as [|n].
    - exists a. simpl. split; [now destruct p | reflexivity].
    - destruct (IH n m ltac:(lia)) as [a' [H1 H2]]. exists a'.
      split; [exact H1|]. exact H2. }
  induction fuel as [|fuel IH]; intros p f H.
  - simpl. replace (substring f 0 p) with "".
    + reflexivity.
    + clear. revert f; induction p as [|a p IH]; intros [|f]; simpl; auto.
  - destruct (Hhead p f fuel H) as [a [H1 H2]].
    simpl splitext_scan. rewrite H1, H2. simpl all_dots.
    unfold String.eqb at 1. fold String.eqb.
    destruct (Ascii.eqb a ".") eqn:Ea; simpl.
    + apply IH. lia.
    + reflexivity.
Qed.

Lemma splitext_name_ext name ext :
  contains "." ext = false ->
  contains "/" ext = false ->
  all_dots (basename name) = false ->
  splitext (name ++ "." ++ ext) = (name, "." ++ ext).
Proof.
  intros Hdot Hsep Hstem. unfold splitext, rfind.
  rewrite !rfind_from_append. simpl rfind_from.
  rewrite (rfind_from_absent "." ext) by exact Hdot.
  rewrite (rfind_from_absent "/" ext) by exact Hsep.
  fold (rfind "/" name).
  pose proof (rfind_bound "/" name) as Hb.
  replace (0 + Z.of_nat (String.length name))%Z
    with (Z.of_nat (String.length name)) by lia.
  destruct (Z.gtb_spec (Z.of_nat (String.length name)) (rfind "/" name));
    [|lia].
  rewrite splitext_scan_spec.
  - rewrite Nat2Z.id.
    rewrite substring_append_left by lia.
    replace (Z.to_nat (Z.of_nat (String.length name) - (rfind "/" name + 1)))
      with (String.length name - Z.to_nat (rfind "/" name + 1)) by lia.
    fold (basename name). rewrite Hstem.
    rewrite length_append, substring_prefix.
    replace (String.length name + String.length ("." ++ ext)
             - String.length name)
      with (String.length ("." ++ ext)) by lia.
    now rewrite substring_suffix.
  - rewrite length_append. lia.
Qed.

Lemma batch_file_name_ext name ext n :
  contains "." ext = false ->
  contains "/" ext = false ->
  all_dots (basename name) = false ->
  batch_file (name ++ "." ++ ext) n
  = name ++ "_batch" ++ str n ++ "." ++ ext.
Proof.
  intros H1 H2 H3. unfold batch_file.
  now rewrite (splitext_name_ext name ext H1 H2 H3).
Qed.

(** *** The batch number in the file name *)

Lemma str_injective n n' : str n = str n' -> n = n'.
Proof.
  assert (Hnil : forall k, Nat.to_uint k <> Decimal.Nil).
  { intros k E. pose proof (Unsigned.of_to k) as Hk. rewrite E in Hk.
    simpl in Hk. subst k. discriminate E. }
  unfold str. intros E. apply Unsigned.to_uint_inj.
  pose proof (NilZero.usu _ (Hnil n)) as H1.
  pose proof (NilZero.usu _ (Hnil n')) as H2.
  rewrite E in H1. rewrite H1 in H2. now injection H2.
Qed.

Lemma append_inv_head s a b : s ++ a = s ++ b -> a = b.
Proof.
  induction s as [|c s IH]; simpl; intros H; [exact H|].
  injection H as H. now apply IH.
Qed.

Lemma append_inv_tail a b s : a ++ s = b ++ s -> a = b.
Proof.
  revert b; induction a as [|c a IH]; intros [|d b] H; simpl in H.
  - reflexivity.
  - exfalso. apply (f_equal String.length) in H. simpl in H.
    rewrite length_append in H. lia.
  - exfalso. apply (f_equal String.length) in H. simpl in H.
    rewrite length_append in H. lia.
  - injection H as -> H. f_equal. now apply IH.
Qed.

Lemma batch_file_inj path n n' :
  batch_file path n = batch_file path n' -> n = n'.
Proof.
  unfold batch_file. destruct (splitext path) as [file_name ext]. intros H.
  apply append_inv_head in H. apply append_inv_head in H.
  apply append_inv_tail in H. now apply str_injective.
Qed.

Lemma substring_split p d :
  d <= String.length p ->
  substring 0 d p ++ substring d (String.length p - d) p = p.
Proof.
  revert d; induction p as [|c p IH]; intros [|d] H; simpl in *; try lia.
  - reflexivity.
  - f_equal. apply substring_all.
  - f_equal. apply IH. lia.
Qed.

Lemma splitext_scan_join p dotIndex filenameIndex fuel :
  dotIndex <= String.length p ->
  let r := splitext_scan p dotIndex filenameIndex fuel in
  fst r ++ snd r = p.
Proof.
  intros Hd. revert filenameIndex.
  induction fuel as [|fuel IH]; intros f; simpl.
  - clear. induction p as [|c p IH]; simpl; congruence.
  - destruct (negb _); [|apply IH]. simpl. now apply substring_split.
Qed.

Lemma splitext_join p : fst (splitext p) ++ snd (splitext p) = p.
Proof.
  unfold splitext. pose proof (rfind_bound "." p) as Hb.
  destruct (Z.gtb_spec (rfind "." p) (rfind "/" p)).
  - apply splitext_scan_join. lia.
  - simpl. clear. induction p as [|c p IH]; simpl; congruence.
Qed.

(** *** The extension [os.path.splitext] finds *)

Lemma rfind_from_split c s i found :
  (rfind_from c s i found = found /\ contains c s = false)
  \/ exists s1 s2,
       s = s1 ++ String c s2
       /\ rfind_from c s i found = (i + Z.of_nat (String.length s1))%Z
       /\ contains c s2 = false.
Proof.
  revert i found; induction s as [|a s IH]; intros i found; simpl.
  - now left.
  - destruct (Ascii.eqb_spec a c) as [->|Hac]; simpl.
    + destruct (IH (i + 1)%Z i) as [[E Hn] | [s1 [s2 [-> [E Hn]]]]].
      * right. exists "", s. rewrite E. simpl.
        repeat split; [f_equal; lia | exact Hn].
      * right. exists (String c s1), s2. rewrite E. simpl.
        repeat split; [lia | exact Hn].
    + destruct (IH (i + 1)%Z found) as [[E Hn] | [s1 [s2 [-> [E Hn]]]]].
      * now left.
      * right. exists (String a s1), s2. rewrite E. simpl.
        repeat split; [lia | exact Hn].
Qed.

Lemma contains_append c s1 s2 :
  contains c (s1 ++ s2) = contains c s1 || contains c s2.
Proof.
  induction s1 as [|a s1 IH]; simpl; [reflexivity|].
  now rewrite IH, orb_assoc.
Qed.

Lemma rfind_from_present c s i found :
  contains c s = true -> (i <= rfind_from c s i found)%Z.
Proof.
  intros H. destruct (rfind_from_split c s i found)
    as [[_ Hn] | [s1 [s2 [_ [E _]]]]]; [congruence | lia].
Qed.

(** The extension is empty, or it is the last dot of the path and what
    follows it, in which there is no separator. *)
Lemma splitext_extension p :
  snd (splitext p) = ""
  \/ exists e, snd (splitext p) = "." ++ e
               /\ contains "." e = false /\ contains "/" e = false.
Proof.
  unfold splitext.
  destruct (Z.gtb_spec (rfind "." p) (rfind "/" p)) as [Hgt|_];
    [|now left].
  pose proof (rfind_bound "/" p) as Hsep.
  pose proof (rfind_bound "." p) as Hdot.
  destruct (rfind_from_split "." p 0 (-1))
    as [[E _] | [s1 [s2 [Ep [E Hn]]]]]; fold (rfind "." p) in E; [lia|].
  rewrite splitext_scan_spec by lia.
  destruct (all_dots _); [now left|]. right. exists s2. simpl snd.
  rewrite E. replace (Z.to_nat (0 + Z.of_nat (String.length s1)))
    with (String.length s1) by lia.
  subst p. rewrite length_append.
  replace (String.length s1 + String.length (String "." s2)
           - String.length s1) with (String.length (String "." s2)) by lia.
  rewrite substring_suffix. repeat split; [exact Hn|].
  destruct (contains "/" s2) eqn:Hs; [|reflexivity]. exfalso.
  assert (Hsl : rfind "/" (s1 ++ String "." s2)
                = rfind_from "/" s2 (0 + Z.of_nat (String.length s1) + 1)
                    (rfind_from "/" s1 0 (-1)))
    by (unfold rfind; now rewrite rfind_from_append).
  pose proof (rfind_from_present "/" s2
                (0 + Z.of_nat (String.length s1) + 1)
                (rfind_from "/" s1 0 (-1)) Hs) as Hp.
  rewrite E, Hsl in Hgt. lia.
Qed.

(** The name of a batch file is made of the two parts
    [os.path.splitext] splits the configured path in, with [_batch{N}]
    between them.  The two parts put together are the path, so taking the
    insertion out gives the path back; the second part is empty or is the
    last dot of the path with what follows it; and the name determines the
    batch number: two batches never share a file. *)
Theorem batch_file_shape path n :
  batch_file path n
  = fst (splitext path) ++ "_batch" ++ str n ++ snd (splitext path)
  /\ fst (splitext path) ++ snd (splitext path) = path
  /\ (snd (splitext path) = ""
      \/ exists e, snd (splitext path) = "." ++ e
                   /\ contains "." e = false /\ contains "/" e = false)
  /\ forall n', batch_file path n' = batch_file path n -> n' = n.
Proof.
  split; [unfold batch_file; now destruct (splitext path)|].
  split; [apply splitext_join|].
  split; [apply splitext_extension|].
  intros n'. apply batch_file_inj.
Qed.

(** A path with no dot has no extension: the suffix [_batch{N}] goes at its
    end. *)
Theorem batch_file_without_extension path n :
  contains "." path = false ->
  batch_file path n = path ++ "_batch" ++ str n.
Proof.
  intros H. unfold batch_file, splitext.
  assert (E : rfind "." path = (-1)%Z)
    by (unfold rfind; now apply rfind_from_absent).
  rewrite E. pose proof (rfind_bound "/" path) as Hb.
  destruct (Z.gtb_spec (-1) (rfind "/" path)); [lia|].
  f_equal. f_equal. clear. induction (str n) as [|c s IH]; simpl; congruence.
Qed.

End PathFacts.

(** ** The retry loop and the loop over the batches *)

Section ProcessorFacts.

Variables Item Result World Delay : Type.
Variable json_dump : Result -> string.
Variable platform : Platform Result Delay.

Local Abbreviation event := (event Item Result Delay).
Local Abbreviation frame := (frame Result World).
Local Abbreviation func_type := (func_type Item Result World).
Local Abbreviation BatchProcessor := (BatchProcessor Item Delay).

Implicit Types (self : BatchProcessor) (func : func_type) (s : frame)
  (t : list event) (batch : list Item) (i k n : nat).

(** *** Lists *)

Lemma filter_none X (f : X -> bool) (l : list X) :
  (forall x, In x l -> f x = false) -> filter f l = [].
Proof.
  intros H. rewrite (filter_ext_in f (fun _ => false) l H).
  apply filter_false.
Qed.

Lemma flat_map_none X Y (f : X -> list Y) (l : list X) :
  (forall x, In x l -> f x = []) -> flat_map f l = [].
Proof.
  induction l as [|x l IH]; intros H; simpl; [reflexivity|].
  rewrite (H x (or_introl eq_refl)). apply IH. intros y Hy. apply H.
  now right.
Qed.

(** *** Observers distribute over the concatenation of traces *)

Lemma invocations_app t1 t2 :
  invocations (t1 ++ t2) = invocations t1 ++ invocations t2.
Proof. apply flat_map_app. Qed.

Lemma sleeps_app t1 t2 : sleeps (t1 ++ t2) = sleeps t1 ++ sleeps t2.
Proof. apply flat_map_app. Qed.

Lemma failures_app t1 t2 : failures (t1 ++ t2) = failures t1 ++ failures t2.
Proof. apply flat_map_app. Qed.

Lemma writes_app t1 t2 : writes (t1 ++ t2) = writes t1 ++ writes t2.
Proof. apply flat_map_app. Qed.

Lemma calls_of_app i t1 t2 :
  calls_of i (t1 ++ t2) = calls_of i t1 ++ calls_of i t2.
Proof. unfold calls_of. now rewrite invocations_app, filter_app. Qed.


Lemma in_invocations t c :
  In c (invocations t)
  <-> In (Call (index c) (attempt c) (argument c) (outcome_of c)) t.
Proof.
  unfold invocations. rewrite in_flat_map. split.
  - intros [ev [Hev Hc]]. destruct ev; simpl in Hc; try contradiction.
    destruct Hc as [<-|[]]. exact Hev.
  - intros H. eexists; split; [exact H|]. destruct c; simpl; auto.
Qed.

(** *** Sequencing *)

Lemma bind_returned X Y (m : M Item Result World Delay X)
    (k : X -> M Item Result World Delay Y) s x :
  value (m s) = Returned x ->
  bind m k s
  = {| trace := trace (m s) ++ trace (k x (final (m s)));
       final := final (k x (final (m s)));
       value := value (k x (final (m s))) |}.
Proof. intros H. unfold bind. now rewrite H. Qed.

Lemma bind_raised X Y (m : M Item Result World Delay X)
    (k : X -> M Item Result World Delay Y) s e :
  value (m s) = Raised e ->
  bind m k s
  = {| trace := trace (m s); final := final (m s); value := Raised e |}.
Proof. intros H. unfold bind. now rewrite H. Qed.

(** *** One step of the retry loop *)

Lemma retry_loop_nil self func i batch s :
  retry_loop platform self func i batch [] s
  = {| trace := []; final := s; value := Returned false |}.
Proof. reflexivity. Qed.

Lemma retry_loop_returned self func i batch a attempts s r w :
  func (world s) batch = (Returned r, w) ->
  retry_loop platform self func i batch (a :: attempts) s
  = {| trace := [PrintProcessing (i + 1) (a + 1);
                 Call i a batch (Returned r)];
       final := {| results := results s ++ [r]; result := Some r;
                   world := w |};
       value := Returned true |}.
Proof.
  intros E. simpl. unfold bind, emit, call; simpl. now rewrite E.
Qed.

(** A call that raises, when [time.sleep] accepts the delay: the loop goes
    on with the next attempt. *)
Lemma retry_loop_raised self func i batch a attempts s e w :
  func (world s) batch = (Raised e, w) ->
  sleep_error platform (retry_delay self) = None ->
  let r' := retry_loop platform self func i batch attempts
              {| results := results s; result := result s; world := w |} in
  retry_loop platform self func i batch (a :: attempts) s
  = {| trace := [PrintProcessing (i + 1) (a + 1);
                 Call i a batch (Raised e);
                 PrintError e (retry_delay self);
                 Sleep i (retry_delay self)] ++ trace r';
       final := final r';
       value := value r' |}.
Proof.
  intros E Hs r'. simpl. unfold bind, emit, call, time_sleep; simpl.
  rewrite E; simpl. unfold bind, emit; simpl. rewrite Hs; simpl.
  fold r'. destruct r' as [t' f' [x|e']]; reflexivity.
Qed.

(** A call that raises, when [time.sleep] refuses the delay: the exception
    of [time.sleep] leaves the loop. *)
Lemma retry_loop_refused self func i batch a attempts s e w e' :
  func (world s) batch = (Raised e, w) ->
  sleep_error platform (retry_delay self) = Some e' ->
  retry_loop platform self func i batch (a :: attempts) s
  = {| trace := [PrintProcessing (i + 1) (a + 1);
                 Call i a batch (Raised e);
                 PrintError e (retry_delay self);
                 Sleep i (retry_delay self)];
       final := {| results := results s; result := result s; world := w |};
       value := Raised e' |}.
Proof.
  intros E Hs. simpl. unfold bind, emit, call, time_sleep; simpl.
  rewrite E; simpl. unfold bind, emit; simpl. now rewrite Hs.
Qed.

(** *** The retry loop as a whole *)

Lemma retry_loop_run self func i batch attempts s :
  let r := retry_loop platform self func i batch attempts s in
  exists outs,
    invocations (trace r) = attempt_calls i batch attempts outs
    /\ sleeps (trace r)
       = map (fun _ => (i, retry_delay self)) (filter is_raised outs)
    /\ failures (trace r) = []
    /\ writes (trace r) = []
    /\ length outs <= length attempts
    /\ retry_end platform self s attempts outs r.
Proof.
  revert s; induction attempts as [|a attempts IH]; intros s.
  - exists []. rewrite retry_loop_nil; simpl.
    repeat apply conj; try reflexivity; auto.
    now apply retry_exhausted with (es := []).
  - destruct (func (world s) batch) as [[r0|e] w] eqn:E.
    + exists [Returned r0].
      rewrite (retry_loop_returned self func i batch a attempts s r0 w E).
      repeat apply conj; try reflexivity; try (simpl; lia).
      now apply retry_success with (es := []) (r0 := r0).
    + destruct (sleep_error platform (retry_delay self)) as [e'|] eqn:Hsl.
      * exists [Raised e].
        rewrite (retry_loop_refused self func i batch a attempts s e w e'
                   E Hsl).
        repeat apply conj; try reflexivity; try (simpl; lia).
        now apply retry_aborted with (e0 := e) (e := e').
      * pose proof (retry_loop_raised self func i batch a attempts s e w
                      E Hsl) as Eq.
        cbv zeta in Eq. rewrite Eq; clear Eq.
        destruct (IH {| results := results s; result := result s;
                        world := w |})
          as [outs [Hi [Hs [Hf [Hw [Hl He]]]]]].
        exists (Raised e :: outs). cbn [trace final value].
        change (?x :: ?y :: ?z :: ?u :: ?l) with ([x; y; z; u] ++ l).
        rewrite invocations_app, sleeps_app, failures_app, writes_app.
        rewrite Hi, Hs, Hf, Hw.
        repeat apply conj; try reflexivity; try (simpl; lia).
        destruct He as [es r0 H1 H2 H3 H4 | es H1 H2 H3 H4 H5
                       | e0 e1 _ H2 _ _ _].
        -- apply retry_success with (es := e :: es) (r0 := r0); auto.
           simpl; now rewrite H1.
        -- apply retry_exhausted with (es := e :: es); auto.
           ++ simpl; now rewrite H1.
           ++ simpl; now rewrite H2.
        -- congruence.
Qed.

(** How the retry loop ends, read on its value. *)
Lemma retry_end_value self s attempts outs (r : run Item Result World Delay bool) :
  retry_end platform self s attempts outs r ->
  match value r with
  | Returned true =>
      exists es r0, outs = map Raised es ++ [Returned r0]
                    /\ results (final r) = results s ++ [r0]
                    /\ result (final r) = Some r0
  | Returned false =>
      exists es, outs = map Raised es
                 /\ length outs = length attempts
                 /\ results (final r) = results s
                 /\ result (final r) = result s
  | Raised e =>
      exists e0, outs = [Raised e0]
                 /\ sleep_error platform (retry_delay self) = Some e
                 /\ results (final r) = results s
                 /\ result (final r) = result s
  end.
Proof.
  intros [es r0 H1 H2 H3 H4 | es H1 H2 H3 H4 H5 | e0 e H1 H2 H3 H4 H5];
    rewrite ?H2, ?H3; eauto 6.
Qed.

(** *** One batch *)

Lemma persist_run self i s :
  persist json_dump platform self i s
  = {| trace := persist_events json_dump platform self i (result s);
       final := s;
       value := persist_value platform self i (result s) |}.
Proof.
  unfold persist, persist_events, persist_value, save_events, save_value,
    _save_to_file, read_result.
  unfold bind, ret, raise, emit.
  destruct (save_to_file self) as [[|c path]|]; cbn [truthy];
    destruct (result s) as [r|]; try reflexivity.
  cbn [value trace final].
  destruct (open_error platform _); [reflexivity|].
  destruct (dump_error platform _ r); reflexivity.
Qed.

Lemma process_batch_split self func i batch s :
  let rl := retry_loop platform self func i batch (range (retries self + 1))
              s in
  process_batch json_dump platform self func i batch s
  = {| trace := trace rl ++ batch_tail json_dump platform self i rl;
       final := final rl;
       value := batch_value platform self i rl |}.
Proof.
  intros rl. unfold process_batch, batch_tail, batch_value.
  destruct (value rl) as [success|e] eqn:Hv.
  - rewrite (bind_returned _ _ _ _ _ _ Hv). fold rl.
    destruct success; cbn [negb];
      rewrite bind_returned with (x := tt) by reflexivity;
      cbv beta; rewrite persist_run; reflexivity.
  - rewrite (bind_raised _ _ _ _ _ _ Hv). fold rl. now rewrite app_nil_r.
Qed.

Lemma persist_events_shape self i res :
  persist_events json_dump platform self i res = []
  \/ (exists path, save_to_file self = Some path
                   /\ persist_events json_dump platform self i res
                      = [DumpFailed (batch_file path (i + 1))])
  \/ (exists path r, save_to_file self = Some path
                     /\ truthy (Some path) = true
                     /\ res = Some r
                     /\ open_error platform (batch_file path (i + 1)) = None
                     /\ dump_error platform (batch_file path (i + 1)) r
                        = None
                     /\ persist_events json_dump platform self i res
                        = [WriteFile (batch_file path (i + 1)) (json_dump r);
                           PrintSaved (i + 1) (batch_file path (i + 1))]).
Proof.
  unfold persist_events, save_events.
  destruct (save_to_file self) as [path|] eqn:Ep; [|now left].
  destruct res as [r|]; [|now left].
  destruct (truthy (Some path)) eqn:Et; [|now left].
  destruct (open_error platform _) eqn:Eo; [now left|].
  destruct (dump_error platform _ r) eqn:Eu.
  - right; left. now exists path.
  - right; right. exists path, r. now repeat split.
Qed.

Lemma persist_events_no_sink self i res :
  truthy (save_to_file self) = false ->
  persist_events json_dump platform self i res = [].
Proof.
  intros H. unfold persist_events.
  destruct (save_to_file self); [|reflexivity].
  destruct res; [|reflexivity]. now rewrite H.
Qed.

(** What follows the retry loop holds no call, no sleep and no diagnostic
    of an attempt. *)
Lemma batch_tail_silent self i (rl : run Item Result World Delay bool) :
  let u := batch_tail json_dump platform self i rl in
  invocations u = [] /\ sleeps u = []
  /\ announcements u = [] /\ error_reports u = []
  /\ ~ In PrintComplete u.
Proof.
  unfold batch_tail.
  destruct (value rl) as [success|e]; [|simpl; tauto].
  destruct (persist_events_shape self i (result (final rl)))
    as [-> | [[path [_ ->]] | [path [r [_ [_ [_ [_ [_ ->]]]]]]]]];
    destruct success; simpl; repeat split; try reflexivity;
    intros H; decompose [or] H; try discriminate; assumption.
Qed.

Lemma failures_persist_events self i res :
  failures (persist_events json_dump platform self i res) = [].
Proof.
  destruct (persist_events_shape self i res)
    as [-> | [[path [_ ->]] | [path [r [_ [_ [_ [_ [_ ->]]]]]]]]];
    reflexivity.
Qed.

Lemma process_batch_run self func i batch s :
  let r := process_batch json_dump platform self func i batch s in
  exists outs,
    invocations (trace r)
    = attempt_calls i batch (range (retries self + 1)) outs
    /\ sleeps (trace r)
       = map (fun _ => (i, retry_delay self)) (filter is_raised outs)
    /\ length outs <= length (range (retries self + 1))
    /\ batch_end json_dump platform self i s outs r.
Proof.
  destruct (retry_loop_run self func i batch (range (retries self + 1)) s)
    as [outs [Hi [Hs [Hf [Hw [Hl He]]]]]].
  exists outs.
  pose proof (process_batch_split self func i batch s) as Eq.
  cbv zeta in Eq. rewrite Eq; clear Eq. cbn [trace final value].
  set (rl := retry_loop platform self func i batch
               (range (retries self + 1)) s) in *.
  destruct (batch_tail_silent self i rl) as [Ti [Ts _]].
  rewrite invocations_app, sleeps_app, Ti, Ts, !app_nil_r, Hi, Hs.
  repeat apply conj; try reflexivity; try assumption.
  apply retry_end_value in He. unfold batch_tail, batch_value.
  destruct (value rl) as [[|]|e].
  - destruct He as [es [r0 [H1 [H2 H3]]]].
    eapply batch_succeeded; cbn [trace final value]; eauto.
    + now rewrite failures_app, Hf, failures_app, failures_persist_events.
    + now rewrite writes_app, Hw, H3.
    + now rewrite H3.
  - destruct He as [es [H1 [H2 [H3 H4]]]].
    eapply batch_exhausted; cbn [trace final value]; eauto.
    + now rewrite failures_app, Hf, failures_app, failures_persist_events.
    + now rewrite writes_app, Hw, H4.
    + now rewrite H4.
  - destruct He as [e0 [H1 [H2 [H3 H4]]]].
    eapply batch_aborted; cbn [trace final value]; eauto.
    + now rewrite app_nil_r.
    + now rewrite app_nil_r.
Qed.

(** *** The loop over the batches *)

Lemma enumerate_from_cons X n (x : X) (l : list X) :
  enumerate_from n (x :: l) = (n, x) :: enumerate_from (S n) l.
Proof. reflexivity. Qed.


Lemma process_loop_returned self func i batch rest s :
  let r1 := process_batch json_dump platform self func i batch s in
  let r2 := process_loop json_dump platform self func rest (final r1) in
  value r1 = Returned tt ->
  process_loop json_dump platform self func ((i, batch) :: rest) s
  = {| trace := trace r1 ++ trace r2; final := final r2; value := value r2 |}.
Proof.
  intros r1 r2 H. cbn [process_loop]. now rewrite (bind_returned _ _ _ _ _ _ H).
Qed.

Lemma process_loop_raised self func i batch rest s e :
  let r1 := process_batch json_dump platform self func i batch s in
  value r1 = Raised e ->
  process_loop json_dump platform self func ((i, batch) :: rest) s
  = {| trace := trace r1; final := final r1; value := Raised e |}.
Proof.
  intros r1 H. cbn [process_loop]. now rewrite (bind_raised _ _ _ _ _ _ H).
Qed.

Lemma range_succ (n : Z) :
  (0 <= n)%Z -> range (n + 1) = 0 :: seq 1 (Z.to_nat n).
Proof.
  intros H. unfold range.
  replace (Z.to_nat (n + 1)) with (S (Z.to_nat n)) by lia. reflexivity.
Qed.

Lemma range_negative (n : Z) : (n < 0)%Z -> range (n + 1) = [].
Proof.
  intros H. unfold range.
  replace (Z.to_nat (n + 1)) with 0 by lia. reflexivity.
Qed.

Lemma length_range (n : Z) : length (range n) = Z.to_nat n.
Proof. unfold range. apply length_seq. Qed.

Lemma attempt_calls_in i batch attempts outs (c : invocation Item Result) :
  In c (attempt_calls i batch attempts outs) ->
  index c = i /\ argument c = batch /\ In (outcome_of c) outs
  /\ In (attempt c) attempts.
Proof.
  unfold attempt_calls. rewrite in_map_iff.
  intros [[o a] [<- Hin]]. simpl.
  repeat split; [eapply in_combine_l | eapply in_combine_r]; eauto.
Qed.

Lemma attempt_calls_outcomes i batch attempts outs :
  length outs <= length attempts ->
  map (@outcome_of Item Result) (attempt_calls i batch attempts outs) = outs.
Proof.
  unfold attempt_calls. rewrite map_map. simpl.
  revert attempts; induction outs as [|o outs IH]; intros [|a attempts] H;
    simpl in *; try reflexivity; try lia.
  f_equal. apply IH. lia.
Qed.

(** *** Frames from which persistence cannot fail *)

Lemma persist_value_bound self i r :
  sink_reliable platform self ->
  persist_value platform self i (Some r) = Returned tt.
Proof.
  intros H. unfold sink_reliable in H. unfold persist_value, save_value.
  destruct (save_to_file self) as [path|]; [|reflexivity].
  destruct H as [->|[Ho Hu]]; [reflexivity|].
  rewrite Ho, Hu. now destruct (truthy _).
Qed.

Lemma persist_value_safe self i s :
  persist_safe platform self s ->
  persist_value platform self i (result s) = Returned tt.
Proof.
  intros [H|[Hr Hw]].
  - unfold persist_value. destruct (save_to_file self); [|reflexivity].
    now rewrite H.
  - destruct (result s) as [r|]; [|congruence].
    apply persist_value_bound. now right.
Qed.

Lemma process_batch_safe self func i batch s :
  let r := process_batch json_dump platform self func i batch s in
  sleep_accepted platform self ->
  persist_safe platform self s ->
  value r = Returned tt /\ persist_safe platform self (final r).
Proof.
  intros r Hsl Hs.
  destruct (process_batch_run self func i batch s)
    as [outs [_ [_ [_ He]]]]. fold r in He.
  destruct He as [es r0 _ _ H3 _ _ H6 | es _ _ _ H4 _ _ H7
                 | e0 e _ H2 _ _ _ _ _].
  - assert (Hrel : sink_reliable platform self)
      by (destruct Hs as [Hs|[_ Hs]]; [now left | now right]).
    split; [rewrite H6; now apply persist_value_bound|].
    destruct Hrel as [Hrel|Hrel]; [now left|].
    right. split; [rewrite H3; discriminate | exact Hrel].
  - split; [rewrite H7; now apply persist_value_safe|].
    destruct Hs as [Hs|[Hr Hs]]; [now left|].
    right. split; [now rewrite H4 | exact Hs].
  - unfold sleep_accepted in Hsl. congruence.
Qed.

Lemma process_loop_safe self func batches s :
  let r := process_loop json_dump platform self func batches s in
  sleep_accepted platform self ->
  persist_safe platform self s ->
  value r = Returned tt /\ persist_safe platform self (final r).
Proof.
  intros r Hsl. unfold r; clear r.
  revert s; induction batches as [|[i batch] rest IH]; intros s Hs.
  - split; [reflexivity | exact Hs].
  - destruct (process_batch_safe self func i batch s Hsl Hs) as [Hv Hs'].
    rewrite (process_loop_returned self func i batch rest s Hv).
    cbn [trace final value]. now apply IH.
Qed.

(** *** The indices in the events of a run *)



(** *** Every call recorded is a call of the processing function *)

Lemma retry_loop_calls_sound self func i batch attempts s c :
  In c (invocations (trace (retry_loop platform self func i batch attempts
                              s))) ->
  exists w, fst (func w (argument c)) = outcome_of c.
Proof.
  revert s; induction attempts as [|a attempts IH]; intros s H.
  - contradiction.
  - destruct (func (world s) batch) as [[r0|e] w] eqn:E.
    + rewrite (retry_loop_returned self func i batch a attempts s r0 w E)
        in H.
      destruct H as [<-|[]]. exists (world s). simpl. now rewrite E.
    + destruct (sleep_error platform (retry_delay self)) as [e'|] eqn:Hsl.
      * rewrite (retry_loop_refused self func i batch a attempts s e w e'
                   E Hsl) in H.
        destruct H as [<-|[]]. exists (world s). simpl. now rewrite E.
      * pose proof (retry_loop_raised self func i batch a attempts s e w
                      E Hsl) as Eq.
        cbv zeta in Eq. rewrite Eq in H; clear Eq. cbn [trace] in H.
        change (?x :: ?y :: ?z :: ?u :: ?l) with ([x; y; z; u] ++ l) in H.
        rewrite invocations_app in H. apply in_app_or in H.
        destruct H as [[<-|[]]|H].
        -- exists (world s). simpl. now rewrite E.
        -- exact (IH _ H).
Qed.

Lemma invocations_process_batch self func i batch s :
  invocations (trace (process_batch json_dump platform self func i batch s))
  = invocations (trace (retry_loop platform self func i batch
                          (range (retries self + 1)) s)).
Proof.
  pose proof (process_batch_split self func i batch s) as Eq.
  cbv zeta in Eq. rewrite Eq; clear Eq. cbn [trace].
  rewrite invocations_app.
  destruct (batch_tail_silent self i
              (retry_loop platform self func i batch
                 (range (retries self + 1)) s)) as [-> _].
  apply app_nil_r.
Qed.

Lemma process_loop_calls_sound self func batches s c :
  In c (invocations (trace (process_loop json_dump platform self func
                              batches s))) ->
  exists w, fst (func w (argument c)) = outcome_of c.
Proof.
  revert s; induction batches as [|[i batch] batches IH]; intros s H.
  - contradiction.
  - destruct (value (process_batch json_dump platform self func i batch s))
      as [[]|e] eqn:Ev.
    + rewrite (process_loop_returned self func i batch _ s Ev) in H.
      cbn [trace] in H. rewrite invocations_app in H.
      apply in_app_or in H. destruct H as [H|H].
      * rewrite invocations_process_batch in H.
        exact (retry_loop_calls_sound _ _ _ _ _ _ _ H).
      * exact (IH _ H).
    + rewrite (process_loop_raised self func i batch _ s e Ev) in H.
      cbn [trace] in H. rewrite invocations_process_batch in H.
      exact (retry_loop_calls_sound _ _ _ _ _ _ _ H).
Qed.

(** *** Runs in which every call returns *)

Lemma process_batch_all_returned self func i batch s :
  let r := process_batch json_dump platform self func i batch s in
  (0 <= retries self)%Z ->
  (forall c, In c (invocations (trace r)) ->
             is_returned (outcome_of c) = true) ->
  exists x,
    invocations (trace r) = [Invocation i 0 batch (Returned x)]
    /\ results (final r) = results s ++ [x]
    /\ result (final r) = Some x
    /\ sleeps (trace r) = []
    /\ failures (trace r) = []
    /\ writes (trace r)
       = writes (persist_events json_dump platform self i (Some x))
    /\ value r = persist_value platform self i (Some x).
Proof.
  intros r Hr Hall.
  destruct (process_batch_run self func i batch s)
    as [outs [Hi [Hs [Hl He]]]]. fold r in Hi, Hs, He.
  assert (Houts : forall o, In o outs -> is_returned o = true).
  { intros o Ho. rewrite <- (attempt_calls_outcomes i batch _ outs Hl) in Ho.
    rewrite <- Hi in Ho. apply in_map_iff in Ho.
    destruct Ho as [c [<- Hc]]. now apply Hall. }
  destruct He as [es r0 H1 H2 H3 H4 H5 H6 | es H1 H2 _ _ _ _ _
                 | e0 e H1 _ _ _ _ _ _].
  - destruct es as [|e es].
    + simpl in H1. subst outs. exists r0.
      rewrite Hi, Hs, (range_succ _ Hr). now repeat split.
    + assert (Hc : is_returned (@Raised Result e) = true)
        by (apply Houts; rewrite H1; simpl; now left).
      discriminate Hc.
  - exfalso. rewrite length_range in H2. destruct es as [|e es].
    + subst outs. simpl in H2. lia.
    + assert (Hc : is_returned (@Raised Result e) = true)
        by (apply Houts; rewrite H1; simpl; now left).
      discriminate Hc.
  - assert (Hc : is_returned (@Raised Result e0) = true)
      by (apply Houts; rewrite H1; now left).
    discriminate Hc.
Qed.

Lemma process_loop_all_returned self func batches n s :
  let r := process_loop json_dump platform self func
             (enumerate_from n batches) s in
  (0 <= retries self)%Z ->
  sink_reliable platform self ->
  (forall c, In c (invocations (trace r)) ->
             is_returned (outcome_of c) = true) ->
  value r = Returned tt
  /\ exists rs,
       length rs = length batches
       /\ results (final r) = results s ++ rs
       /\ invocations (trace r) = first_attempt_calls n batches rs.
Proof.
  intros r Hr Hrel. unfold r; clear r.
  revert n s; induction batches as [|batch batches IH]; intros n s Hall.
  - split; [reflexivity|]. exists []. simpl. now rewrite app_nil_r.
  - rewrite enumerate_from_cons in *.
    set (r1 := process_batch json_dump platform self func n batch s) in *.
    assert (Hsub : forall c, In c (invocations (trace r1)) ->
                             is_returned (outcome_of c) = true).
    { intros c Hc. apply Hall.
      destruct (value r1) as [[]|e] eqn:Ev.
      - rewrite (process_loop_returned self func n batch _ s Ev).
        cbn [trace]. rewrite invocations_app. apply in_or_app. now left.
      - rewrite (process_loop_raised self func n batch _ s e Ev).
        exact Hc. }
    destruct (process_batch_all_returned self func n batch s Hr Hsub)
      as [x [K1 [K2 [K3 [_ [_ [_ K7]]]]]]]. fold r1 in K1, K2, K3, K7.
    assert (Ev : value r1 = Returned tt)
      by (rewrite K7; now apply persist_value_bound).
    rewrite (process_loop_returned self func n batch _ s Ev) in *.
    cbn [trace final value] in *. fold r1 in Hall |- *.
    destruct (IH (S n) (final r1)) as [Hv' [rs [Hlen [Hres Hinv]]]].
    { intros c Hc. apply Hall. rewrite invocations_app.
      apply in_or_app. now right. }
    split; [exact Hv'|]. exists (x :: rs). repeat apply conj.
    + simpl. now rewrite Hlen.
    + rewrite Hres, K2, <- app_assoc. reflexivity.
    + rewrite invocations_app, Hinv, K1. reflexivity.
Qed.

(** *** Runs in which a batch succeeds at its second attempt *)

Lemma enumerate_from_app X n (l1 l2 : list X) :
  enumerate_from n (l1 ++ l2)
  = enumerate_from n l1 ++ enumerate_from (n + length l1) l2.
Proof.
  revert n; induction l1 as [|x l1 IH]; intros n.
  - simpl. now rewrite Nat.add_0_r.
  - change ((x :: l1) ++ l2) with (x :: (l1 ++ l2)).
    rewrite !enumerate_from_cons, IH. simpl. repeat f_equal. lia.
Qed.




(** *** A call that returns is followed by the write of its result *)

Lemma retry_loop_returned_call self func i batch attempts s k a b x :
  let r := retry_loop platform self func i batch attempts s in
  In (Call k a b (Returned x)) (trace r) ->
  k = i /\ b = batch /\ value r = Returned true /\ result (final r) = Some x
  /\ exists t1, trace r = t1 ++ [Call k a b (Returned x)].
Proof.
  revert s; induction attempts as [|a0 attempts IH]; intros s r H.
  - contradiction.
  - unfold r in *; clear r.
    destruct (func (world s) batch) as [[r0|e] w] eqn:E.
    + rewrite (retry_loop_returned self func i batch a0 attempts s r0 w E)
        in *.
      cbn [trace final value result] in *.
      destruct H as [H|[H|[]]]; [discriminate H|].
      injection H as <- <- <- <-. repeat apply conj; auto.
      now exists [PrintProcessing (i + 1) (a0 + 1)].
    + destruct (sleep_error platform (retry_delay self)) as [e'|] eqn:Hsl.
      * rewrite (retry_loop_refused self func i batch a0 attempts s e w e'
                   E Hsl) in H.
        exfalso. simpl in H.
        destruct H as [H|[H|[H|[H|[]]]]]; discriminate H.
      * pose proof (retry_loop_raised self func i batch a0 attempts s e w
                      E Hsl) as Eq.
        cbv zeta in Eq. rewrite Eq in *; clear Eq.
        cbn [trace final value] in *.
        apply in_app_or in H. destruct H as [H|H].
        -- exfalso. simpl in H.
           destruct H as [H|[H|[H|[H|[]]]]]; discriminate H.
        -- destruct (IH _ H) as [K1 [K2 [K3 [K4 [t1 K5]]]]].
           repeat apply conj; auto.
           eexists. rewrite K5. now rewrite app_assoc.
Qed.

Lemma process_batch_returned_call self func i batch s path k a b x :
  let r := process_batch json_dump platform self func i batch s in
  let file := batch_file path (k + 1) in
  save_to_file self = Some path ->
  truthy (Some path) = true ->
  open_error platform file = None ->
  dump_error platform file x = None ->
  In (Call k a b (Returned x)) (trace r) ->
  exists t1,
    trace r = t1 ++ [Call k a b (Returned x);
                     WriteFile file (json_dump x);
                     PrintSaved (k + 1) file].
Proof.
  intros r file Hpath Htruthy Hopen Hser H. unfold r, file in *; clear r file.
  pose proof (process_batch_split self func i batch s) as Eq.
  cbv zeta in Eq. rewrite Eq in *; clear Eq. cbn [trace] in *.
  set (rl := retry_loop platform self func i batch
               (range (retries self + 1)) s) in *.
  assert (Hin : In (Call k a b (Returned x)) (trace rl)).
  { apply in_app_or in H. destruct H as [H|H]; [exact H|]. exfalso.
    apply (in_invocations _ (Invocation k a b (Returned x))) in H.
    destruct (batch_tail_silent self i rl) as [Ti _].
    now rewrite Ti in H. }
  destruct (retry_loop_returned_call self func i batch _ s k a b x Hin)
    as [-> [-> [K3 [K4 [t1 K5]]]]]. fold rl in K3, K4, K5.
  unfold batch_tail. rewrite K3, K4, K5.
  unfold persist_events, save_events. rewrite Hpath, Htruthy, Hopen, Hser.
  exists t1. cbn [app]. now rewrite <- app_assoc.
Qed.

Lemma process_loop_returned_call self func batches s path k a b x :
  let r := process_loop json_dump platform self func batches s in
  let file := batch_file path (k + 1) in
  save_to_file self = Some path ->
  truthy (Some path) = true ->
  open_error platform file = None ->
  dump_error platform file x = None ->
  In (Call k a b (Returned x)) (trace r) ->
  exists t1 t2,
    trace r = t1 ++ [Call k a b (Returned x);
                     WriteFile file (json_dump x);
                     PrintSaved (k + 1) file] ++ t2.
Proof.
  intros r file Hpath Htruthy Hopen Hser. unfold r; clear r.
  revert s; induction batches as [|[i batch] batches IH]; intros s H.
  - contradiction.
  - destruct (value (process_batch json_dump platform self func i batch s))
      as [[]|e] eqn:Ev.
    + rewrite (process_loop_returned self func i batch _ s Ev) in *.
      cbn [trace] in *. apply in_app_or in H. destruct H as [H|H].
      * destruct (process_batch_returned_call self func i batch s path
                    k a b x Hpath Htruthy Hopen Hser H) as [t1 ->].
        exists t1. eexists. now rewrite <- !app_assoc.
      * destruct (IH _ H) as [t1 [t2 ->]].
        eexists. exists t2. now rewrite app_assoc.
    + rewrite (process_loop_raised self func i batch _ s e Ev) in *.
      cbn [trace] in *.
      destruct (process_batch_returned_call self func i batch s path
                  k a b x Hpath Htruthy Hopen Hser H) as [t1 ->].
      exists t1, []. now rewrite app_nil_r.
Qed.

(** *** The first call of a run *)

Lemma process_batch_first_call self func i batch s :
  (0 <= retries self)%Z ->
  exists o rest,
    invocations (trace (process_batch json_dump platform self func i batch s))
    = Invocation i 0 batch o :: rest.
Proof.
  intros Hr.
  destruct (process_batch_run self func i batch s)
    as [outs [Hi [_ [_ He]]]].
  rewrite Hi, (range_succ _ Hr).
  destruct outs as [|o outs].
  - exfalso. destruct He as [es r0 H _ _ _ _ _ | es _ H _ _ _ _ _
                            | e0 e H _ _ _ _ _ _].
    + destruct es; discriminate H.
    + rewrite length_range in H. simpl in H. lia.
    + discriminate H.
  - now exists o, (attempt_calls i batch (seq 1 (Z.to_nat (retries self))) outs).
Qed.

(** *** Runs from a frame in which persistence cannot fail *)

Lemma process_loop_attempts_all self func batches n s i b :
  sleep_accepted platform self ->
  persist_safe platform self s ->
  (0 <= retries self)%Z ->
  nth_error batches i = Some b ->
  exists o,
    In (Invocation (n + i) 0 b o)
       (invocations (trace (process_loop json_dump platform self func
                              (enumerate_from n batches) s))).
Proof.
  intros Hsl Hs Hr. revert n s i Hs;
    induction batches as [|batch batches IH]; intros n s [|i] Hs Hb;
    try discriminate; rewrite enumerate_from_cons;
    destruct (process_batch_safe self func n batch s Hsl Hs) as [Ev Hs'];
    rewrite (process_loop_returned self func n batch _ s Ev);
    cbn [trace]; rewrite invocations_app.
  - simpl in Hb. injection Hb as ->.
    destruct (process_batch_first_call self func n b s Hr) as [o [rest Ho]].
    exists o. apply in_or_app. left. rewrite Ho, Nat.add_0_r. now left.
  - simpl in Hb. destruct (IH (S n) _ i Hs' Hb) as [o Ho].
    exists o. apply in_or_app. right.
    now replace (n + S i) with (S n + i) by lia.
Qed.

Lemma process_loop_negative_retries self func batches n s :
  let r := process_loop json_dump platform self func
             (enumerate_from n batches) s in
  truthy (save_to_file self) = false ->
  (retries self < 0)%Z ->
  invocations (trace r) = []
  /\ failures (trace r)
     = map (fun i => (i + 1, retries self)) (seq n (length batches))
  /\ results (final r) = results s
  /\ value r = Returned tt.
Proof.
  intros r Hs Hr. unfold r; clear r. revert n s;
    induction batches as [|batch batches IH]; intros n s.
  - now repeat split.
  - rewrite enumerate_from_cons.
    destruct (process_batch_run self func n batch s)
      as [outs [Hi [_ [Hl He]]]].
    rewrite (range_negative _ Hr) in Hi, Hl.
    destruct outs as [|o outs]; [|simpl in Hl; lia].
    destruct He as [es r0 H _ _ _ _ _ | es _ _ H1 _ H2 _ H3
                   | e0 e H _ _ _ _ _ _];
      [destruct es; discriminate H | | discriminate H].
    assert (Ev : value (process_batch json_dump platform self func n batch s)
                 = Returned tt).
    { rewrite H3. apply persist_value_safe. now left. }
    rewrite (process_loop_returned self func n batch _ s Ev).
    cbn [trace final value].
    destruct (IH (S n) (final (process_batch json_dump platform self func n
                                 batch s))) as [K1 [K2 [K3 K4]]].
    rewrite invocations_app, failures_app, Hi, K1, K2, K3, H1, H2.
    now repeat split.
Qed.

(** *** Runs in which one batch fails at every attempt *)

Lemma returns_app t1 t2 : returns (t1 ++ t2) = returns t1 ++ returns t2.
Proof. unfold returns. now rewrite invocations_app, flat_map_app. Qed.


(** *** The whole of [process] *)

Lemma process_returned self func w :
  value (main_loop json_dump platform self func w) = Returned tt ->
  process json_dump platform self func w
  = {| trace := trace (main_loop json_dump platform self func w)
                ++ [PrintComplete];
       final := final (main_loop json_dump platform self func w);
       value := Returned
                  (results (final (main_loop json_dump platform self func
                                     w))) |}.
Proof.
  intros H. unfold process, main_loop in *. unfold tqdm.
  assert (E : (if progress self
               then get_batches (batch_size self) (iterable self)
               else get_batches (batch_size self) (iterable self))
              = get_batches (batch_size self) (iterable self))
    by now destruct (progress self).
  rewrite E. unfold start in H.
  rewrite (bind_returned _ _ _ _ _ _ H). reflexivity.
Qed.

Lemma process_raised self func w e :
  value (main_loop json_dump platform self func w) = Raised e ->
  process json_dump platform self func w
  = {| trace := trace (main_loop json_dump platform self func w);
       final := final (main_loop json_dump platform self func w);
       value := Raised e |}.
Proof.
  intros H. unfold process, main_loop in *. unfold tqdm.
  assert (E : (if progress self
               then get_batches (batch_size self) (iterable self)
               else get_batches (batch_size self) (iterable self))
              = get_batches (batch_size self) (iterable self))
    by now destruct (progress self).
  rewrite E. unfold start in H.
  now rewrite (bind_raised _ _ _ _ _ _ H).
Qed.

Lemma invocations_process self func w :
  invocations (trace (process json_dump platform self func w))
  = invocations (trace (main_loop json_dump platform self func w)).
Proof.
  destruct (value (main_loop json_dump platform self func w))
    as [[]|e] eqn:E.
  - rewrite (process_returned _ _ _ E). cbn [trace].
    rewrite invocations_app. simpl. now rewrite app_nil_r.
  - now rewrite (process_raised _ _ _ _ E).
Qed.

Lemma sleeps_process self func w :
  sleeps (trace (process json_dump platform self func w))
  = sleeps (trace (main_loop json_dump platform self func w)).
Proof.
  destruct (value (main_loop json_dump platform self func w))
    as [[]|e] eqn:E.
  - rewrite (process_returned _ _ _ E). cbn [trace].
    rewrite sleeps_app. simpl. now rewrite app_nil_r.
  - now rewrite (process_raised _ _ _ _ E).
Qed.

Lemma failures_process self func w :
  failures (trace (process json_dump platform self func w))
  = failures (trace (main_loop json_dump platform self func w)).
Proof.
  destruct (value (main_loop json_dump platform self func w))
    as [[]|e] eqn:E.
  - rewrite (process_returned _ _ _ E). cbn [trace].
    rewrite failures_app. simpl. now rewrite app_nil_r.
  - now rewrite (process_raised _ _ _ _ E).
Qed.

Lemma writes_process self func w :
  writes (trace (process json_dump platform self func w))
  = writes (trace (main_loop json_dump platform self func w)).
Proof.
  destruct (value (main_loop json_dump platform self func w))
    as [[]|e] eqn:E.
  - rewrite (process_returned _ _ _ E). cbn [trace].
    rewrite writes_app. simpl. now rewrite app_nil_r.
  - now rewrite (process_raised _ _ _ _ E).
Qed.

Lemma returns_process self func w :
  returns (trace (process json_dump platform self func w))
  = returns (trace (main_loop json_dump platform self func w)).
Proof. unfold returns. now rewrite invocations_process. Qed.

Lemma process_value self func w :
  value (process json_dump platform self func w)
  = match value (main_loop json_dump platform self func w) with
    | Returned _ =>
        Returned (results (final (main_loop json_dump platform self func w)))
    | Raised e => Raised e
    end.
Proof.
  destruct (value (main_loop json_dump platform self func w))
    as [[]|e] eqn:E.
  - now rewrite (process_returned _ _ _ E).
  - now rewrite (process_raised _ _ _ _ E).
Qed.







Lemma first_attempt_calls_map n batches rs (f : list Item -> Result) :
  length rs = length batches ->
  (forall c, In c (first_attempt_calls n batches rs) ->
             outcome_of c = Returned (f (argument c))) ->
  rs = map f batches.
Proof.
  revert n rs; induction batches as [|b batches IH]; intros n [|x rs] Hl H;
    try discriminate; [reflexivity|].
  change (first_attempt_calls n (b :: batches) (x :: rs))
    with (Invocation n 0 b (Returned x)
          :: first_attempt_calls (S n) batches rs) in H.
  simpl. f_equal.
  - specialize (H _ (or_introl eq_refl)). simpl in H. congruence.
  - apply (IH (S n)); [simpl in Hl; lia|].
    intros c Hc. apply H. now right.
Qed.

Lemma process_map_value self func w (f : list Item -> Result) :
  (0 <= retries self)%Z ->
  sink_reliable platform self ->
  (forall w' b, fst (func w' b) = Returned (f b)) ->
  value (process json_dump platform self func w)
  = Returned (map f (get_batches (batch_size self) (iterable self))).
Proof.
  intros Hr Hrel Hf.
  assert (Hs : forall c,
             In c (invocations
                     (trace (main_loop json_dump platform self func w))) ->
             outcome_of c = Returned (f (argument c))).
  { intros c Hc. apply process_loop_calls_sound in Hc.
    destruct Hc as [w' <-]. apply Hf. }
  pose proof (process_loop_all_returned self func
                (get_batches (batch_size self) (iterable self)) 0 (start w)
                Hr Hrel) as H.
  change (process_loop json_dump platform self func
            (enumerate_from 0 (get_batches (batch_size self) (iterable self)))
            (start w)) with (main_loop json_dump platform self func w) in H.
  destruct H as [Hv [rs [Hlen [Hres Hinv]]]].
  { intros c Hc. now rewrite (Hs c Hc). }
  rewrite (process_returned _ _ _ Hv). cbn [value]. rewrite Hres. simpl.
  f_equal. apply (first_attempt_calls_map 0 _ _ f Hlen).
  intros c Hc. apply Hs. now rewrite Hinv.
Qed.

(** A processing function that returns [f batch] at every call: when no
    sink is configured, or every write to the sink succeeds, the list
    returned is [f] mapped over the batches. *)
Theorem process_total_function self func w (f : list Item -> Result) :
  (0 <= retries self)%Z ->
  sink_reliable platform self ->
  (forall w' b, fst (func w' b) = Returned (f b)) ->
  value (process json_dump platform self func w)
  = Returned (map f (get_batches (batch_size self) (iterable self))).
Proof. apply process_map_value. Qed.

Lemma process_returned_call self func w path k a b x :
  let r := process json_dump platform self func w in
  let file := batch_file path (k + 1) in
  save_to_file self = Some path ->
  truthy (Some path) = true ->
  open_error platform file = None ->
  dump_error platform file x = None ->
  In (Call k a b (Returned x)) (trace r) ->
  exists t1 t2,
    trace r = t1 ++ [Call k a b (Returned x);
                     WriteFile file (json_dump x);
                     PrintSaved (k + 1) file] ++ t2.
Proof.
  intros r file Hpath Htruthy Hopen Hser H. unfold r in *; clear r.
  destruct (value (main_loop json_dump platform self func w))
    as [[]|e] eqn:Ev.
  - rewrite (process_returned _ _ _ Ev) in *. cbn [trace] in *.
    apply in_app_or in H. destruct H as [H|[H|[]]]; [|discriminate H].
    destruct (process_loop_returned_call self func _ _ path k a b x
                Hpath Htruthy Hopen Hser H) as [t1 [t2 Ht]].
    unfold main_loop at 1. rewrite Ht. exists t1. eexists.
    now rewrite <- !app_assoc.
  - rewrite (process_raised _ _ _ _ Ev) in *. cbn [trace] in *.
    exact (process_loop_returned_call self func _ _ path k a b x
             Hpath Htruthy Hopen Hser H).
Qed.

(** C8, as the code has it.  With the base path [name.ext] ([ext] the
    extension: it holds no dot and no separator, and the last component of
    [name] is not made of dots only), a call for the batch of index [k]
    (its number is [k + 1]) that returns [x] is followed at once, when the
    file [name_batch{k+1}.ext] can be opened for writing and [x] can be
    serialized, by the write to that file of [json_dump x], the text
    [json.dump] gives with [indent=4]. *)
Theorem saved_to_batch_file self func w name ext k a b x :
  let r := process json_dump platform self func w in
  let file := (name ++ "_batch" ++ str (k + 1) ++ "." ++ ext)%string in
  save_to_file self = Some (name ++ "." ++ ext)%string ->
  contains "." ext = false ->
  contains "/" ext = false ->
  all_dots (basename name) = false ->
  open_error platform file = None ->
  dump_error platform file x = None ->
  In (Call k a b (Returned x)) (trace r) ->
  exists t1 t2,
    trace r = t1 ++ [Call k a b (Returned x);
                     WriteFile file (json_dump x);
                     PrintSaved (k + 1) file] ++ t2.
Proof.
  intros r file Hpath Hdot Hsep Hstem Hopen Hser H. unfold r, file in *.
  rewrite <- (batch_file_name_ext name ext (k + 1) Hdot Hsep Hstem) in *.
  apply (process_returned_call self func w _ k a b x Hpath);
    [|exact Hopen|exact Hser|exact H].
  now destruct name.
Qed.

(** Without a sink, and with a delay that [time.sleep] accepts, the run
    cannot raise: every batch is attempted, whatever became of the batches
    before it. *)
Theorem process_without_sink self func w :
  let r := process json_dump platform self func w in
  truthy (save_to_file self) = false ->
  sleep_error platform (retry_delay self) = None ->
  (exists rs, value r = Returned rs)
  /\ ((0 <= retries self)%Z ->
      forall i b,
        nth_error (get_batches (batch_size self) (iterable self)) i = Some b ->
        exists o, In (Call i 0 b o) (trace r)).
Proof.
  intros r Hsink Hsl. unfold r; clear r.
  assert (Hs : persist_safe platform self (start (Result := Result) w))
    by now left.
  destruct (process_loop_safe self func
              (enumerate (get_batches (batch_size self) (iterable self)))
              (start w) Hsl Hs) as [Hv _].
  fold (main_loop json_dump platform self func w) in Hv.
  split.
  - rewrite (process_returned _ _ _ Hv). cbn [value]. eauto.
  - intros Hr i b Hb.
    destruct (process_loop_attempts_all self func _ 0 (start w) i b Hsl Hs
                Hr Hb) as [o Ho].
    exists o. apply (in_invocations _ (Invocation i 0 b o)).
    rewrite invocations_process. exact Ho.
Qed.

(** Without a sink and with a negative retry count no call is made, every
    batch is reported failed, in order, and the list returned is empty. *)
Theorem process_negative_retries self func w :
  let r := process json_dump platform self func w in
  truthy (save_to_file self) = false ->
  (retries self < 0)%Z ->
  invocations (trace r) = []
  /\ failures (trace r)
     = map (fun i => (i + 1, retries self))
         (seq 0 (length (get_batches (batch_size self) (iterable self))))
  /\ value r = Returned [].
Proof.
  intros r Hsink Hr. unfold r; clear r.
  destruct (process_loop_negative_retries self func
              (get_batches (batch_size self) (iterable self)) 0 (start w)
              Hsink Hr) as [K1 [K2 [K3 K4]]].
  fold (enumerate (get_batches (batch_size self) (iterable self)))
    in K1, K2, K3, K4.
  fold (main_loop json_dump platform self func w) in K1, K2, K3, K4.
  rewrite invocations_process, failures_process, K1, K2.
  rewrite (process_returned _ _ _ K4). cbn [value]. rewrite K3.
  now repeat split.
Qed.


(** C9. Calling the function wrapped by [batch_process] on a sequence is
    constructing a [BatchProcessor] over the sequence with the decorator's
    configuration and calling [process] with the function: same events,
    same final frame, same result or exception. *)
Theorem batch_process_is_process (batch_size : Z) (progress : bool)
    (save_to_file : option string) (retries : Z) (retry_delay : Delay)
    func (iterable : list Item) (w : World) :
  batch_process json_dump platform batch_size progress save_to_file retries
    retry_delay func iterable w
  = process json_dump platform
      (__init__ iterable batch_size progress save_to_file retries retry_delay)
      func w.
Proof. reflexivity. Qed.

(** C7, as the code has it.  Nothing rejects a batch size that is not
    positive: the length of a batch never equals it, so [get_batches] yields
    the whole of a non-empty input as one batch (and nothing for an empty
    input), and with a retry count that is not negative the first call of
    [process] is made on that batch. *)
Theorem nonpositive_batch_size self func w :
  (batch_size self <= 0)%Z ->
  get_batches (batch_size self) (iterable self)
  = match iterable self with [] => [] | _ :: _ => [iterable self] end
  /\ (iterable self <> [] -> (0 <= retries self)%Z ->
      exists o,
        In (Call 0 0 (iterable self) o)
           (trace (process json_dump platform self func w))).
Proof.
  intros Hsz.
  assert (E : get_batches (batch_size self) (iterable self)
              = match iterable self with
                | [] => []
                | _ :: _ => [iterable self]
                end)
    by (unfold get_batches; now rewrite get_batches_from_nonpositive).
  split; [exact E|]. intros Hne Hr.
  assert (Hin : exists o,
             In (Invocation 0 0 (iterable self) o)
               (invocations
                  (trace (main_loop json_dump platform self func w)))).
  { unfold main_loop. rewrite E.
    destruct (iterable self) as [|x items]; [congruence|].
    change (enumerate [x :: items]) with [(0, x :: items)].
    destruct (process_batch_first_call self func 0 (x :: items) (start w) Hr)
      as [o [rest Ho]].
    exists o.
    destruct (value (process_batch json_dump platform self func 0
                       (x :: items) (start w))) as [[]|e] eqn:Ev.
    - rewrite (process_loop_returned self func 0 _ [] _ Ev). cbn [trace].
      rewrite invocations_app, Ho. now left.
    - rewrite (process_loop_raised self func 0 _ [] _ e Ev). cbn [trace].
      rewrite Ho. now left. }
  destruct Hin as [o Hin]. exists o.
  rewrite <- invocations_process in Hin.
  now apply in_invocations in Hin.
Qed.

(** *** A rule for invariants of the loop over the batches *)

(** [P i s t v] speaks of the loop when it is about to process the batch of
    index [i], or has stopped: [s] is the frame, [t] the events so far and
    [v] what the body returned or raised for the batch before. *)
Lemma process_loop_invariant self func
    (P : nat -> frame -> list event -> outcome unit -> Prop) batches n :
  (forall i batch s t,
      n <= i ->
      nth_error batches (i - n) = Some batch ->
      P i s t (Returned tt) ->
      let r1 := process_batch json_dump platform self func i batch s in
      P (S i) (final r1) (t ++ trace r1) (value r1)) ->
  forall s t0,
    P n s t0 (Returned tt) ->
    let r := process_loop json_dump platform self func
               (enumerate_from n batches) s in
    exists m,
      n <= m <= n + length batches
      /\ P m (final r) (t0 ++ trace r) (value r)
      /\ (value r = Returned tt -> m = n + length batches).
Proof.
  revert n; induction batches as [|batch batches IH]; intros n Hstep s t0 H0.
  - exists n. simpl. rewrite app_nil_r. repeat split; try lia. exact H0.
  - rewrite enumerate_from_cons.
    pose proof (Hstep n batch s t0 (le_n n)) as H1.
    rewrite Nat.sub_diag in H1. specialize (H1 eq_refl H0). cbv zeta in H1.
    destruct (value (process_batch json_dump platform self func n batch s))
      as [[]|e] eqn:Ev.
    + rewrite (process_loop_returned self func n batch _ s Ev).
      cbn [trace final value].
      destruct (IH (S n)) with
        (s := final (process_batch json_dump platform self func n batch s))
        (t0 := t0 ++ trace (process_batch json_dump platform self func n
                              batch s))
        as [m [Hm [HP Hv]]].
      * intros i b s' t' Hi Hb. apply Hstep; [lia|].
        replace (i - n) with (S (i - S n)) by lia. exact Hb.
      * exact H1.
      * exists m. rewrite app_assoc. simpl length.
        repeat split; try lia; [exact HP|]. intros E. specialize (Hv E). lia.
    + rewrite (process_loop_raised self func n batch _ s e Ev).
      cbn [trace final value]. exists (S n). simpl length.
      repeat split; try lia; [exact H1 | discriminate].
Qed.

(** The same for [process], whose loop starts at the first batch with no
    result yet. *)
Lemma main_loop_invariant self func w
    (P : nat -> frame -> list event -> outcome unit -> Prop) :
  let batches := get_batches (batch_size self) (iterable self) in
  P 0 (start w) [] (Returned tt) ->
  (forall i batch s t,
      nth_error batches i = Some batch ->
      P i s t (Returned tt) ->
      let r1 := process_batch json_dump platform self func i batch s in
      P (S i) (final r1) (t ++ trace r1) (value r1)) ->
  let r := main_loop json_dump platform self func w in
  exists m,
    m <= length batches
    /\ P m (final r) (trace r) (value r)
    /\ (value r = Returned tt -> m = length batches).
Proof.
  intros batches H0 Hstep r.
  destruct (process_loop_invariant self func P batches 0) with
    (s := start (Result := Result) w) (t0 := @nil event)
    as [m [Hm [HP Hv]]].
  - intros i batch s t _ Hb. rewrite Nat.sub_0_r in Hb. now apply Hstep.
  - exact H0.
  - exists m. repeat split; [lia | exact HP | exact Hv].
Qed.

(** What one batch adds to the calls that returned. *)
Lemma returns_attempt_calls_raised i batch attempts (es : list exn) :
  flat_map (fun c : invocation Item Result =>
              match outcome_of c with
              | Returned x => [(index c, x)]
              | Raised _ => []
              end)
    (attempt_calls i batch attempts (map Raised es)) = [].
Proof.
  apply flat_map_none. intros c Hc. apply attempt_calls_in in Hc.
  destruct Hc as [_ [_ [Ho _]]]. apply in_map_iff in Ho.
  now destruct Ho as [e [<- _]].
Qed.

Lemma returns_attempt_calls_success i batch attempts (es : list exn) r0 :
  length (map (@Raised Result) es ++ [Returned r0]) <= length attempts ->
  flat_map (fun c : invocation Item Result =>
              match outcome_of c with
              | Returned x => [(index c, x)]
              | Raised _ => []
              end)
    (attempt_calls i batch attempts (map Raised es ++ [Returned r0]))
  = [(i, r0)].
Proof.
  unfold attempt_calls. revert attempts.
  induction es as [|e es IH]; intros [|a attempts] H; simpl in H; try lia.
  - simpl. now destruct attempts.
  - simpl. apply IH. simpl. lia.
Qed.

(** A batch gives one result, or none: then it is reported failed, unless
    [time.sleep] raised. *)
Lemma process_batch_returns self func i batch s :
  let r := process_batch json_dump platform self func i batch s in
  (exists x, returns (trace r) = [(i, x)]
             /\ results (final r) = results s ++ [x]
             /\ result (final r) = Some x
             /\ failures (trace r) = []
             /\ value r = persist_value platform self i (Some x))
  \/ (returns (trace r) = []
      /\ results (final r) = results s
      /\ result (final r) = result s
      /\ ((failures (trace r) = [(i + 1, retries self)]
           /\ value r = persist_value platform self i (result s))
          \/ (failures (trace r) = []
              /\ exists e, value r = Raised e
                           /\ sleep_error platform (retry_delay self)
                              = Some e))).
Proof.
  intros r.
  destruct (process_batch_run self func i batch s)
    as [outs [Hi [_ [Hl He]]]]. fold r in Hi, He.
  unfold returns. rewrite Hi.
  destruct He as [es r0 H1 H2 H3 H4 H5 H6 | es H1 _ H3 H4 H5 H6 H7
                 | e0 e H1 H2 H3 H4 H5 H6 H7]; subst outs.
  - left. exists r0. rewrite returns_attempt_calls_success by exact Hl. auto.
  - right. rewrite returns_attempt_calls_raised. auto 6.
  - right. rewrite (returns_attempt_calls_raised i batch _ [e0]).
    repeat split; try assumption. right. eauto.
Qed.

(** *** The retry discipline *)

Lemma calls_of_process_batch self func i batch s j :
  let r := process_batch json_dump platform self func i batch s in
  exists outs,
    length outs <= length (range (retries self + 1))
    /\ Forall (fun o => is_raised o = true) (removelast outs)
    /\ calls_of j (trace r)
       = if Nat.eqb i j
         then attempt_calls i batch (range (retries self + 1)) outs
         else [].
Proof.
  intros r.
  destruct (process_batch_run self func i batch s)
    as [outs [Hi [_ [Hl He]]]]. fold r in Hi, He.
  exists outs. split; [exact Hl|]. split.
  - destruct He as [es r0 -> _ _ _ _ _ | es -> _ _ _ _ _ _
                   | e0 e -> _ _ _ _ _ _].
    + rewrite removelast_last. apply Forall_forall. intros o Ho.
      apply in_map_iff in Ho. now destruct Ho as [e [<- _]].
    + apply Forall_forall. intros o Ho.
      assert (Ho' : In o (map (@Raised Result) es)).
      { clear - Ho. induction es as [|e [|e' es] IH]; simpl in *; tauto. }
      apply in_map_iff in Ho'. now destruct Ho' as [e [<- _]].
    + constructor.
  - unfold calls_of. rewrite Hi. destruct (Nat.eqb_spec i j) as [<-|Hj].
    + apply forallb_filter_id. apply forallb_forall. intros c Hc.
      apply attempt_calls_in in Hc. destruct Hc as [-> _].
      apply Nat.eqb_refl.
    + apply filter_none. intros c Hc. apply attempt_calls_in in Hc.
      destruct Hc as [-> _]. now apply Nat.eqb_neq.
Qed.

(** The calls made for one batch are attempts 0, 1, 2, ... on that batch,
    at most [retries + 1] of them, and no call follows one that returned:
    every call but the last one raised. *)
Theorem retry_discipline self func w i :
  let r := process json_dump platform self func w in
  let batches := get_batches (batch_size self) (iterable self) in
  exists outs,
    calls_of i (trace r)
    = attempt_calls i (nth i batches []) (range (retries self + 1)) outs
    /\ length outs <= Z.to_nat (retries self + 1)
    /\ Forall (fun o => is_raised o = true) (removelast outs).
Proof.
  intros r batches. unfold r, calls_of. rewrite invocations_process.
  fold (calls_of i (trace (main_loop json_dump platform self func w))).
  subst batches.
  destruct (main_loop_invariant self func w
              (fun m _ t _ =>
                 (m <= i -> calls_of i t = [])
                 /\ exists outs,
                      calls_of i t
                      = attempt_calls i
                          (nth i (get_batches (batch_size self)
                                    (iterable self)) [])
                          (range (retries self + 1)) outs
                      /\ length outs <= Z.to_nat (retries self + 1)
                      /\ Forall (fun o => is_raised o = true)
                           (removelast outs)))
    as [m [_ [[_ H] _]]].
  - split; [reflexivity|]. exists [].
    split; [reflexivity|]. split; [simpl; lia | constructor].
  - intros j batch s t Hb [H0 [outs [H1 [H2 H3]]]] r1.
    destruct (calls_of_process_batch self func j batch s i)
      as [outs1 [K1 [K2 K3]]]. fold r1 in K3.
    rewrite calls_of_app, K3.
    destruct (Nat.eqb_spec j i) as [->|Hj].
    + rewrite (H0 (le_n i)). split; [lia|]. exists outs1.
      rewrite (nth_error_nth _ _ [] Hb). rewrite length_range in K1.
      now repeat split.
    + rewrite app_nil_r. split; [intros; apply H0; lia|].
      exists outs. now repeat split.
  - exact H.
Qed.

(** *** A delay after every failed attempt *)

Lemma sleeps_attempt_calls i batch attempts outs (d : Delay) :
  length outs <= length attempts ->
  map (fun _ : outcome Result => (i, d)) (filter is_raised outs)
  = map (fun c : invocation Item Result => (index c, d))
      (filter (fun c => is_raised (outcome_of c))
         (attempt_calls i batch attempts outs)).
Proof.
  unfold attempt_calls. revert attempts.
  induction outs as [|o outs IH]; intros [|a attempts] H; simpl in H;
    try reflexivity; try lia.
  simpl. destruct (is_raised o); simpl; [f_equal|]; apply IH; lia.
Qed.

(** Every call that raised is followed by one sleep of [retry_delay], the
    last attempt of a batch included, and nothing else sleeps: the delays
    of a run are, in order, one per call that raised. *)
Theorem sleep_after_every_failure self func w :
  let r := process json_dump platform self func w in
  sleeps (trace r)
  = map (fun c => (index c, retry_delay self))
      (filter (fun c => is_raised (outcome_of c)) (invocations (trace r))).
Proof.
  intros r. unfold r. rewrite sleeps_process, invocations_process.
  destruct (main_loop_invariant self func w
              (fun _ _ t _ =>
                 sleeps t
                 = map (fun c => (index c, retry_delay self))
                     (filter (fun c => is_raised (outcome_of c))
                        (invocations t))))
    as [m [_ [H _]]].
  - reflexivity.
  - intros j batch s t _ H r1.
    destruct (process_batch_run self func j batch s)
      as [outs [Hi [Hs [Hl _]]]]. fold r1 in Hi, Hs.
    rewrite sleeps_app, invocations_app, filter_app, map_app, H, Hs, Hi.
    f_equal. now apply sleeps_attempt_calls.
  - exact H.
Qed.

(** *** The list returned *)

Lemma StronglySorted_snoc (l : list nat) (i : nat) :
  StronglySorted lt l -> Forall (fun j => j < i) l ->
  StronglySorted lt (l ++ [i]).
Proof.
  induction l as [|j l IH]; intros Hs Hl; simpl.
  - repeat constructor.
  - inversion Hs as [|? ? Hs' Hj]; subst. inversion Hl as [|? ? Hji Hl']; subst.
    constructor; [now apply IH|].
    apply Forall_app. split; [exact Hj | now repeat constructor].
Qed.

(** The list returned holds, in order, what the calls that returned
    returned, and these calls belong to batches of increasing index: a
    batch gives at most one entry and the entries are in batch order. *)
Theorem results_are_the_returns self func w rs :
  let r := process json_dump platform self func w in
  let batches := get_batches (batch_size self) (iterable self) in
  value r = Returned rs ->
  rs = map snd (returns (trace r))
  /\ StronglySorted lt (map fst (returns (trace r)))
  /\ Forall (fun i => i < length batches) (map fst (returns (trace r))).
Proof.
  intros r batches Hv. unfold r in *; clear r. subst batches.
  rewrite returns_process. rewrite process_value in Hv.
  destruct (main_loop_invariant self func w
              (fun m s t _ =>
                 results s = map snd (returns t)
                 /\ StronglySorted lt (map fst (returns t))
                 /\ Forall (fun i => i < m) (map fst (returns t))))
    as [m [Hm [[H1 [H2 H3]] _]]].
  - repeat split; constructor.
  - intros i batch s t _ [H1 [H2 H3]] r1.
    rewrite returns_app, !map_app.
    destruct (process_batch_returns self func i batch s)
      as [[x [K1 [K2 _]]] | [K1 [K2 _]]]; fold r1 in K1, K2;
      rewrite K1, K2, H1; simpl; rewrite ?app_nil_r.
    + repeat split.
      * now apply StronglySorted_snoc.
      * apply Forall_app. split; [|repeat constructor].
        eapply Forall_impl; [|exact H3]. simpl. lia.
    + repeat split; [exact H2|].
      eapply Forall_impl; [|exact H3]. simpl. lia.
  - destruct (value (main_loop json_dump platform self func w)) as [[]|e];
      [|discriminate].
    injection Hv as <-. repeat split; [exact H1 | exact H2 |].
    eapply Forall_impl; [|exact H3]. simpl. lia.
Qed.

Lemma succeeded_returns i t :
  succeeded i t = existsb (fun ix => Nat.eqb (fst ix) i) (returns t).
Proof.
  unfold succeeded, calls_of, returns.
  induction (invocations t) as [|c l IH]; [reflexivity|]. simpl.
  rewrite existsb_app, <- IH.
  destruct (Nat.eqb_spec (index c) i) as [E|E]; simpl;
    destruct (outcome_of c); simpl; rewrite ?E, ?Nat.eqb_refl;
    try reflexivity.
  now apply Nat.eqb_neq in E as ->.
Qed.

Lemma succeeded_false i t :
  succeeded i t = false <-> forall x, ~ In (i, x) (returns t).
Proof.
  rewrite succeeded_returns. split.
  - intros H x Hin.
    assert (Ht : existsb (fun ix => Nat.eqb (fst ix) i) (returns t) = true).
    { apply existsb_exists. exists (i, x). split; [exact Hin|].
      apply Nat.eqb_refl. }
    congruence.
  - intros H.
    destruct (existsb (fun ix => Nat.eqb (fst ix) i) (returns t)) eqn:E;
      [|reflexivity].
    apply existsb_exists in E. destruct E as [[j x] [Hin Hj]].
    simpl in Hj. apply Nat.eqb_eq in Hj. subst j. now elim (H x).
Qed.

(** When [process] returns, every batch is accounted for once: it gave an
    entry of the list or it was reported failed, with the configured retry
    count, and never both. *)
Theorem every_batch_accounted self func w rs :
  let r := process json_dump platform self func w in
  let batches := get_batches (batch_size self) (iterable self) in
  value r = Returned rs ->
  length rs + length (failures (trace r)) = length batches
  /\ (forall n R, In (n, R) (failures (trace r)) ->
                  R = retries self /\ 1 <= n <= length batches)
  /\ (forall i, i < length batches ->
        (In (i + 1, retries self) (failures (trace r))
         <-> succeeded i (trace r) = false)).
Proof.
  intros r batches Hv. unfold r in *; clear r. subst batches.
  assert (Hs : forall i,
             succeeded i (trace (process json_dump platform self func w))
             = succeeded i (trace (main_loop json_dump platform self func
                                     w))).
  { intros i. now rewrite !succeeded_returns, returns_process. }
  rewrite failures_process. rewrite process_value in Hv.
  destruct (main_loop_invariant self func w
              (fun m s t v =>
                 v = Returned tt ->
                 length (results s) + length (failures t) = m
                 /\ (forall n R, In (n, R) (failures t) ->
                                 R = retries self /\ 1 <= n <= m)
                 /\ (forall i x, In (i, x) (returns t) -> i < m)
                 /\ (forall i, In (i + 1, retries self) (failures t)
                               <-> i < m /\ forall x, ~ In (i, x) (returns t))))
    as [m [Hm [H Hend]]].
  - intros _. simpl. repeat split; try contradiction; try lia.
  - intros i batch s t _ H r1 Ev.
    destruct (H eq_refl) as [H1 [H2 [H3 H4]]]; clear H.
    destruct (process_batch_returns self func i batch s)
      as [[x [K1 [K2 [_ [K4 _]]]]]
         | [K1 [K2 [_ [[K4 _] | [_ [e [K5 _]]]]]]]];
      fold r1 in K1, K2; try fold r1 in K4; try fold r1 in K5;
      [| |rewrite K5 in Ev; discriminate Ev];
      rewrite failures_app, returns_app, K1, K2, K4, ?app_nil_r.
    + rewrite length_app. simpl. split; [lia|]. split; [|split].
      * intros n R Hin. apply H2 in Hin. split; [tauto | lia].
      * intros j y Hin. apply in_app_or in Hin. destruct Hin as [Hin|Hin].
        -- apply H3 in Hin. lia.
        -- destruct Hin as [Hin|[]]. injection Hin as <- <-. lia.
      * intros j. split.
        -- intros Hin. apply H4 in Hin. destruct Hin as [Hlt Hno].
           split; [lia|]. intros y Hy. apply in_app_or in Hy.
           destruct Hy as [Hy|Hy]; [now apply (Hno y)|].
           destruct Hy as [Hy|[]]. injection Hy as E _. lia.
        -- intros [Hlt Hno]. apply H4. split.
           ++ destruct (Nat.eq_dec j i) as [->|]; [|lia].
              elim (Hno x). apply in_or_app. right. now left.
           ++ intros y Hy. apply (Hno y). apply in_or_app. now left.
    + rewrite length_app. simpl. split; [lia|]. split; [|split].
      * intros n R Hin. apply in_app_or in Hin. destruct Hin as [Hin|[Hin|[]]].
        -- apply H2 in Hin. split; [tauto | lia].
        -- injection Hin as <- <-. split; [reflexivity | lia].
      * intros j y Hin. apply H3 in Hin. lia.
      * intros j. split.
        -- intros Hin. apply in_app_or in Hin.
           destruct Hin as [Hin|[Hin|[]]].
           ++ apply H4 in Hin. destruct Hin as [Hlt Hno].
              split; [lia | exact Hno].
           ++ injection Hin as E. split; [lia|].
              intros y Hy. apply H3 in Hy. lia.
        -- intros [Hlt Hno]. apply in_or_app.
           destruct (Nat.eq_dec j i) as [->|].
           ++ right. now left.
           ++ left. apply H4. split; [lia | exact Hno].
  - destruct (value (main_loop json_dump platform self func w)) as [[]|e];
      [|discriminate].
    injection Hv as <-. specialize (Hend eq_refl).
    destruct (H eq_refl) as [H1 [H2 [H3 H4]]].
    rewrite Hend in H1, H2, H4. clear Hend H3 Hm m H.
    split; [exact H1|]. split.
    + intros n R Hin. apply H2 in Hin. split; [tauto | lia].
    + intros i Hi. rewrite Hs. split.
      * intros Hin. apply succeeded_false. now apply H4.
      * intros Hf. apply H4. split; [exact Hi|]. now apply succeeded_false.
Qed.

(** *** The exception that ends a run *)

Lemma process_batch_raised self func i batch s e :
  let r := process_batch json_dump platform self func i batch s in
  sleep_accepted platform self ->
  writes_succeed platform ->
  value r = Raised e ->
  e = UnboundLocalError "result"
  /\ truthy (save_to_file self) = true
  /\ result s = None
  /\ returns (trace r) = []
  /\ exists t', trace r = t' ++ [PrintFailed (i + 1) (retries self)].
Proof.
  intros r Hsl [Ho Hu] Hv. unfold r in *; clear r.
  destruct (retry_loop_run self func i batch (range (retries self + 1)) s)
    as [outs [Hi [_ [_ [_ [_ He]]]]]].
  apply retry_end_value in He.
  unfold returns. rewrite invocations_process_batch, Hi.
  pose proof (process_batch_split self func i batch s) as Eq.
  cbv zeta in Eq. rewrite Eq in *; clear Eq. cbn [trace final value] in *.
  unfold batch_value, batch_tail in *.
  destruct (value (retry_loop platform self func i batch
                     (range (retries self + 1)) s)) as [[|]|e1].
  - exfalso. destruct He as [es [r0 [_ [_ H3]]]]. rewrite H3 in Hv.
    rewrite persist_value_bound in Hv; [discriminate Hv|].
    right. now split.
  - destruct He as [es [H1 [_ [_ H4]]]]. rewrite H4 in *.
    unfold persist_value, persist_events, save_value in *.
    destruct (save_to_file self) as [path|]; [|discriminate Hv].
    destruct (truthy (Some path)); [|discriminate Hv].
    destruct (result s) as [r0|].
    + rewrite Ho, Hu in Hv. discriminate Hv.
    + injection Hv as <-. rewrite H1, returns_attempt_calls_raised.
      repeat split. eexists. reflexivity.
  - exfalso. destruct He as [e0 [_ [H2 _]]].
    unfold sleep_accepted in Hsl. congruence.
Qed.

(** When [time.sleep] accepts the delay and every write to the sink
    succeeds, the only exception [process] lets out is the
    [UnboundLocalError] for [result]: it comes with a sink configured,
    right after a failure report, when no call has returned yet. *)
Theorem only_exception_is_unbound_result self func w e :
  let r := process json_dump platform self func w in
  sleep_error platform (retry_delay self) = None ->
  writes_succeed platform ->
  value r = Raised e ->
  e = UnboundLocalError "result"
  /\ truthy (save_to_file self) = true
  /\ returns (trace r) = []
  /\ exists t' n, trace r = t' ++ [PrintFailed n (retries self)].
Proof.
  intros r Hsl Hws Hv. unfold r in *; clear r.
  rewrite returns_process. rewrite process_value in Hv.
  destruct (value (main_loop json_dump platform self func w))
    as [[]|e'] eqn:Ev; [discriminate Hv|].
  injection Hv as ->. rewrite (process_raised _ _ _ _ Ev). cbn [trace].
  destruct (main_loop_invariant self func w
              (fun m s t v =>
                 (result s = None -> returns t = [])
                 /\ forall e0, v = Raised e0 ->
                      e0 = UnboundLocalError "result"
                      /\ truthy (save_to_file self) = true
                      /\ returns t = []
                      /\ exists t' n,
                           t = t' ++ [PrintFailed n (retries self)]))
    as [m [_ [[_ H] _]]].
  - split; [reflexivity | discriminate].
  - intros i batch s t _ [H1 _] r1. split.
    + intros Hn. rewrite returns_app.
      destruct (process_batch_returns self func i batch s)
        as [[x [_ [_ [K3 _]]]] | [K1 [_ [K3 _]]]]; fold r1 in K3.
      * rewrite K3 in Hn. discriminate Hn.
      * fold r1 in K1. rewrite K1, app_nil_r. apply H1. congruence.
    + intros e0 He0.
      destruct (process_batch_raised self func i batch s e0 Hsl Hws He0)
        as [K1 [K2 [K3 [K4 [t' K5]]]]]. fold r1 in K4, K5.
      rewrite returns_app, K4, (H1 K3), K5.
      repeat split; try assumption.
      exists (t ++ t'), (i + 1). now rewrite app_assoc.
  - exact (H e Ev).
Qed.

Lemma persist_value_raised self i res e :
  persist_value platform self i res = Raised e ->
  exists path,
    save_to_file self = Some path
    /\ truthy (Some path) = true
    /\ ((res = None /\ e = UnboundLocalError "result")
        \/ exists x,
             res = Some x
             /\ (open_error platform (batch_file path (i + 1)) = Some e
                 \/ dump_error platform (batch_file path (i + 1)) x
                    = Some e)).
Proof.
  unfold persist_value, save_value. intros H.
  destruct (save_to_file self) as [path|]; [|discriminate H].
  exists path. split; [reflexivity|].
  destruct (truthy (Some path)); [|discriminate H].
  split; [reflexivity|].
  destruct res as [x|].
  - right. exists x. split; [reflexivity|].
    destruct (open_error platform _) as [e1|];
      [left; congruence|].
    destruct (dump_error platform _ x) as [e1|]; [|discriminate H].
    right. congruence.
  - left. split; [reflexivity | congruence].
Qed.

(** The exceptions [process] lets out are the [UnboundLocalError] for
    [result], with a sink and before any call has returned; the exception
    of [time.sleep]; and, with a sink, the exception of [open] for the file
    of a batch or the exception of [json.dump] writing to it a result that
    a call returned. *)
Theorem exceptions_of_process self func w e :
  let r := process json_dump platform self func w in
  let batches := get_batches (batch_size self) (iterable self) in
  value r = Raised e ->
  (e = UnboundLocalError "result"
   /\ truthy (save_to_file self) = true
   /\ returns (trace r) = [])
  \/ sleep_error platform (retry_delay self) = Some e
  \/ exists path n,
       save_to_file self = Some path
       /\ truthy (Some path) = true
       /\ 1 <= n <= length batches
       /\ (open_error platform (batch_file path n) = Some e
           \/ exists i x,
                In (i, x) (returns (trace r))
                /\ dump_error platform (batch_file path n) x = Some e).
Proof.
  intros r batches Hv. unfold r in *; clear r. subst batches.
  rewrite returns_process. rewrite process_value in Hv.
  destruct (value (main_loop json_dump platform self func w))
    as [[]|e'] eqn:Ev; [discriminate Hv|].
  injection Hv as ->.
  destruct (main_loop_invariant self func w
              (fun m s t v =>
                 (result s = None -> returns t = [])
                 /\ (forall x, result s = Some x ->
                               exists i, In (i, x) (returns t))
                 /\ forall e0, v = Raised e0 ->
                      (e0 = UnboundLocalError "result"
                       /\ truthy (save_to_file self) = true
                       /\ returns t = [])
                      \/ sleep_error platform (retry_delay self) = Some e0
                      \/ exists path n,
                           save_to_file self = Some path
                           /\ truthy (Some path) = true
                           /\ 1 <= n <= m
                           /\ (open_error platform (batch_file path n)
                               = Some e0
                               \/ exists i x,
                                    In (i, x) (returns t)
                                    /\ dump_error platform
                                         (batch_file path n) x = Some e0)))
    as [m [Hm [[_ [_ H]] _]]].
  - split; [reflexivity|]. split; discriminate.
  - intros i batch s t _ [H1 [H2 _]] r1.
    rewrite returns_app.
    destruct (process_batch_returns self func i batch s)
      as [[x [K1 [_ [K3 [_ K5]]]]]
         | [K1 [_ [K3 [[_ K5] | [_ [e1 [K5 K6]]]]]]]];
      fold r1 in K1, K3, K5; rewrite K1, K3, ?app_nil_r.
    + split; [discriminate|]. split.
      * intros y Hy. injection Hy as <-. exists i.
        apply in_or_app. right. now left.
      * intros e0 He0. rewrite K5 in He0.
        apply persist_value_raised in He0.
        destruct He0 as [path [Hp [Ht [[F _] | [y [Hy Hw]]]]]];
          [discriminate F|].
        injection Hy as <-. right; right. exists path, (i + 1).
        repeat split; try assumption; try lia.
        destruct Hw as [Hw|Hw]; [now left|]. right. exists i, x.
        split; [|exact Hw]. apply in_or_app. right. now left.
    + split; [exact H1|]. split; [exact H2|].
      intros e0 He0. rewrite K5 in He0.
      apply persist_value_raised in He0.
      destruct He0 as [path [Hp [Ht [[Hn ->] | [y [Hy Hw]]]]]].
      * left. repeat split; [now rewrite Hp | now apply H1].
      * right; right. exists path, (i + 1).
        repeat split; try assumption; try lia.
        destruct Hw as [Hw|Hw]; [now left|]. right.
        destruct (H2 y Hy) as [j Hj]. now exists j, y.
    + split; [exact H1|]. split; [exact H2|].
      intros e0 He0. rewrite K5 in He0. injection He0 as <-.
      right; left. exact K6.
  - destruct (H e Ev) as [K | [K | [path [n [Hp [Ht [Hn K]]]]]]].
    + now left.
    + right; now left.
    + right; right. exists path, n. repeat split; try assumption; lia.
Qed.

(** *** Nothing is written without a sink *)

Lemma writes_process_batch self func i batch s :
  let r := process_batch json_dump platform self func i batch s in
  exists res,
    writes (trace r) = writes (persist_events json_dump platform self i res).
Proof.
  intros r.
  destruct (process_batch_run self func i batch s)
    as [outs [_ [_ [_ He]]]]. fold r in He.
  destruct He as [es r0 _ _ _ _ H _ | es _ _ _ _ _ H _
                 | e0 e _ _ _ _ _ H _].
  - now exists (Some r0).
  - now exists (result s).
  - exists None. rewrite H. unfold persist_events.
    now destruct (save_to_file self).
Qed.

(** With [save_to_file] [None] or empty no file is written. *)
Theorem no_sink_no_write self func w :
  truthy (save_to_file self) = false ->
  writes (trace (process json_dump platform self func w)) = [].
Proof.
  intros Hsink. rewrite writes_process.
  destruct (main_loop_invariant self func w (fun _ _ t _ => writes t = []))
    as [m [_ [H _]]].
  - reflexivity.
  - intros i batch s t _ H r1.
    destruct (writes_process_batch self func i batch s) as [res Hw].
    fold r1 in Hw.
    now rewrite writes_app, H, Hw, (persist_events_no_sink self i res Hsink).
  - exact H.
Qed.

(** *** What is written for a batch that failed *)

Lemma app_cons_split X (l u l1 l2 : list X) (x : X) :
  l ++ u = l1 ++ x :: l2 ->
  (exists u', l = l1 ++ x :: u' /\ l2 = u' ++ u)
  \/ (exists l1', l1 = l ++ l1' /\ u = l1' ++ x :: l2).
Proof.
  revert l1; induction l as [|y l IH]; intros l1 H.
  - right. now exists l1.
  - destruct l1 as [|z l1]; simpl in H.
    + injection H as -> <-. left. now exists l.
    + injection H as -> H. destruct (IH _ H) as [[u' [-> ->]]|[l1' [-> ->]]].
      * left. now exists u'.
      * right. now exists l1'.
Qed.

Lemma unique_split X (l1 l2 l1' l2' : list X) (x : X) :
  ~ In x l1 -> ~ In x l2 ->
  l1 ++ x :: l2 = l1' ++ x :: l2' ->
  l1 = l1' /\ l2 = l2'.
Proof.
  revert l1'; induction l1 as [|a l1 IH]; intros [|b l1'] H1 H2 H; simpl in H.
  - injection H as ->. now split.
  - injection H as -> ->. elim H2. apply in_or_app. right. now left.
  - injection H as -> _. elim H1. now left.
  - injection H as -> H. destruct (IH l1') as [-> ->]; auto.
    intros Hin. apply H1. now right.
Qed.

Lemma in_failures t n R :
  In (PrintFailed n R) t <-> In (n, R) (failures t).
Proof.
  unfold failures. rewrite in_flat_map. split.
  - intros H. eexists; split; [exact H|]. now left.
  - intros [ev [Hev H]]. destruct ev; simpl in H; try contradiction.
    destruct H as [H|[]]. now injection H as -> ->.
Qed.

Lemma last_result_none t u :
  returns u = [] -> last_result (t ++ u) = last_result t.
Proof.
  intros H. unfold last_result. now rewrite returns_app, H, app_nil_r.
Qed.

Lemma last_result_some t u i x :
  returns u = [(i, x)] -> last_result (t ++ u) = Some x.
Proof.
  intros H. unfold last_result. rewrite returns_app, H, map_app. simpl.
  apply last_last.
Qed.

Lemma save_value_returned path n r :
  save_value platform path n r = Returned tt ->
  open_error platform (batch_file path n) = None
  /\ dump_error platform (batch_file path n) r = None.
Proof.
  unfold save_value.
  destruct (open_error platform _); [discriminate|].
  destruct (dump_error platform _ r); [discriminate|]. now split.
Qed.

(** The failure report of a batch, in the events of its processing. *)
Lemma process_batch_failure_report self func i batch s u1 n R u2 :
  let r := process_batch json_dump platform self func i batch s in
  trace r = u1 ++ PrintFailed n R :: u2 ->
  n = i + 1
  /\ returns u1 = []
  /\ result (final r) = result s
  /\ u2 = persist_events json_dump platform self i (result s)
  /\ value r = persist_value platform self i (result s).
Proof.
  intros r E. unfold r in *; clear r.
  destruct (retry_loop_run self func i batch (range (retries self + 1)) s)
    as [outs [Hi [_ [Hf [_ [_ He]]]]]].
  apply retry_end_value in He.
  pose proof (process_batch_split self func i batch s) as Eq.
  cbv zeta in Eq. rewrite Eq in *; clear Eq. cbn [trace final value] in *.
  set (rl := retry_loop platform self func i batch
               (range (retries self + 1)) s) in *.
  assert (Hrl : ~ In (PrintFailed (Item := Item) (Result := Result)
                        (Delay := Delay) n R) (trace rl)).
  { intros F. apply in_failures in F. now rewrite Hf in F. }
  assert (Hin : In (PrintFailed (Item := Item) (Result := Result)
                      (Delay := Delay) n R)
                  (trace rl ++ batch_tail json_dump platform self i rl))
    by (rewrite E; apply in_or_app; right; now left).
  apply in_app_or in Hin. destruct Hin as [Hin|Hin]; [tauto|].
  unfold batch_tail, batch_value in *.
  assert (Hpe : forall res,
             ~ In (PrintFailed (Item := Item) (Result := Result)
                     (Delay := Delay) n R)
                 (persist_events json_dump platform self i res)).
  { intros res F. apply in_failures in F.
    now rewrite failures_persist_events in F. }
  destruct (value rl) as [[|]|e1].
  - exfalso. exact (Hpe _ Hin).
  - destruct He as [es [H1 [_ [_ H4]]]].
    destruct Hin as [Hin|Hin]; [|exfalso; exact (Hpe _ Hin)].
    injection Hin as <- <-. cbn [app] in E.
    destruct (unique_split _ _ _ _ _ _ Hrl (Hpe _) E) as [<- <-].
    rewrite H4. repeat split.
    unfold returns. rewrite Hi, H1. apply returns_attempt_calls_raised.
  - contradiction.
Qed.

(** With a sink, a failure report is followed at once, when the write to
    the file of the failed batch succeeds, by the write to that file of the
    latest result returned so far, which is the result of another batch;
    when no call has returned yet the report is the last event and the run
    raises [UnboundLocalError]. *)
Theorem failed_batch_writes_latest_result self func w path t1 n R t2 :
  let r := process json_dump platform self func w in
  save_to_file self = Some path ->
  truthy (Some path) = true ->
  open_error platform (batch_file path n) = None ->
  (forall x, last_result t1 = Some x ->
             dump_error platform (batch_file path n) x = None) ->
  trace r = t1 ++ PrintFailed n R :: t2 ->
  match last_result t1 with
  | Some x =>
      exists t2',
        t2 = WriteFile (batch_file path n) (json_dump x)
             :: PrintSaved n (batch_file path n) :: t2'
  | None => t2 = [] /\ value r = Raised (UnboundLocalError "result")
  end.
Proof.
  intros r Hpath Htruthy Hopen Hdump Ht. unfold r in *; clear r.
  destruct (main_loop_invariant self func w
              (fun m s t v =>
                 result s = last_result t
                 /\ forall t1 n R t2,
                      t = t1 ++ PrintFailed n R :: t2 ->
                      open_error platform (batch_file path n) = None ->
                      (forall x, last_result t1 = Some x ->
                         dump_error platform (batch_file path n) x = None) ->
                      match last_result t1 with
                      | Some x =>
                          exists t2',
                            t2 = WriteFile (batch_file path n) (json_dump x)
                                 :: PrintSaved n (batch_file path n) :: t2'
                      | None =>
                          t2 = [] /\ v = Raised (UnboundLocalError "result")
                      end))
    as [m [_ [[_ H] _]]].
  - split; [reflexivity|]. intros [|? ?] ? ? ? E; discriminate E.
  - intros i batch s t _ [H1 H2] r1. split.
    + destruct (process_batch_returns self func i batch s)
        as [[x [K1 [_ [K3 _]]]] | [K1 [_ [K3 _]]]]; fold r1 in K1, K3.
      * now rewrite K3, (last_result_some t _ i x K1).
      * now rewrite K3, (last_result_none t _ K1).
    + intros u1 k R' u2 E Ho Hd. apply app_cons_split in E.
      destruct E as [[u' [-> ->]] | [u1' [-> E]]].
      * specialize (H2 _ _ _ _ eq_refl Ho Hd).
        destruct (last_result u1) as [y|].
        -- destruct H2 as [t2' ->]. eexists. reflexivity.
        -- destruct H2 as [_ H2]. discriminate H2.
      * destruct (process_batch_failure_report self func i batch s
                    u1' k R' u2 E) as [-> [Q1 [_ [-> Q4]]]].
        fold r1 in Q4.
        rewrite (last_result_none t _ Q1), <- H1 in Hd |- *. rewrite Q4.
        unfold persist_events, persist_value, save_events, save_value.
        rewrite Hpath, Htruthy.
        destruct (result s) as [y|]; [|now split].
        rewrite Ho, (Hd y eq_refl). eexists. reflexivity.
  - destruct (value (main_loop json_dump platform self func w))
      as [[]|e] eqn:Ev.
    + rewrite (process_returned _ _ _ Ev) in Ht. cbn [trace] in Ht.
      apply app_cons_split in Ht.
      destruct Ht as [[u' [Ht ->]] | [t1' [_ Ht]]].
      * specialize (H _ _ _ _ Ht Hopen Hdump).
        destruct (last_result t1) as [x|].
        -- destruct H as [t2' ->]. eexists. reflexivity.
        -- destruct H as [_ H]. discriminate H.
      * destruct t1' as [|? [|? ?]]; discriminate Ht.
    + rewrite (process_raised _ _ _ _ Ev) in *. cbn [trace value] in *.
      specialize (H _ _ _ _ Ht Hopen Hdump).
      destruct (last_result t1) as [x|].
      * exact H.
      * destruct H as [-> H]. split; [reflexivity|]. now injection H as ->.
Qed.

(** *** The files of a run *)

(** A run writes no file twice: the files written have distinct names, one
    per batch number. *)
Theorem written_files_distinct self func w :
  NoDup (map fst (writes (trace (process json_dump platform self func w)))).
Proof.
  rewrite writes_process.
  destruct (main_loop_invariant self func w
              (fun m _ t _ =>
                 NoDup (map fst (writes t))
                 /\ forall p, In p (map fst (writes t)) ->
                      exists j path,
                        j < m /\ save_to_file self = Some path
                        /\ p = batch_file path (j + 1)))
    as [m [_ [[H _] _]]].
  - split; [constructor | contradiction].
  - intros i batch s t _ [H1 H2] r1.
    destruct (writes_process_batch self func i batch s) as [res Hw].
    fold r1 in Hw. rewrite writes_app, map_app, Hw.
    destruct (persist_events_shape self i res)
      as [-> | [[path [_ ->]] | [path [x [Ep [_ [_ [_ [_ ->]]]]]]]]];
      simpl; rewrite ?app_nil_r;
      try (split; [exact H1|]; intros p Hp;
           destruct (H2 p Hp) as [j [q [Hj Hq]]]; exists j, q;
           split; [lia | exact Hq]).
    split.
    + apply NoDup_app; [exact H1 | repeat constructor; tauto |].
      intros p Hp [<-|[]]. destruct (H2 _ Hp) as [j [q [Hj [Hq E]]]].
      rewrite Ep in Hq. injection Hq as <-. apply batch_file_inj in E. lia.
    + intros p Hp. apply in_app_or in Hp. destruct Hp as [Hp|[<-|[]]].
      * destruct (H2 p Hp) as [j [q [Hj Hq]]]. exists j, q.
        split; [lia | exact Hq].
      * exists i, path. split; [lia|]. now split.
  - exact H.
Qed.

Lemma enumerate_from_snoc X n (l : list X) (x : X) :
  enumerate_from n (l ++ [x]) = enumerate_from n l ++ [(n + length l, x)].
Proof. now rewrite enumerate_from_app. Qed.

Lemma map_fst_enumerate_from X n (l : list X) :
  map fst (enumerate_from n l) = seq n (length l).
Proof.
  revert n; induction l as [|x l IH]; intros n; [reflexivity|].
  rewrite enumerate_from_cons. simpl. now rewrite IH.
Qed.

(** When [process] returns after calls that all returned (the retry count
    not being negative), the list has one entry per batch, entry [i] being
    what the call on the batch of index [i] returned; no delay elapsed and
    no failure was reported; and with a sink the files written are, in
    order, one per batch, numbered from 1, each holding the result of its
    batch. *)
Theorem all_succeed_files self func w rs :
  let r := process json_dump platform self func w in
  let batches := get_batches (batch_size self) (iterable self) in
  (0 <= retries self)%Z ->
  (forall c, In c (invocations (trace r)) ->
             is_returned (outcome_of c) = true) ->
  value r = Returned rs ->
  length rs = length batches
  /\ returns (trace r) = enumerate rs
  /\ sleeps (trace r) = []
  /\ failures (trace r) = []
  /\ forall path,
       save_to_file self = Some path ->
       truthy (Some path) = true ->
       writes (trace r)
       = map (fun ix => (batch_file path (fst ix + 1), json_dump (snd ix)))
           (enumerate rs)
       /\ map fst (writes (trace r))
          = map (fun i => batch_file path (i + 1)) (seq 0 (length batches)).
Proof.
  intros r batches Hr Hall Hv. unfold r in *; clear r. subst batches.
  rewrite invocations_process in Hall.
  rewrite returns_process, sleeps_process, failures_process, writes_process.
  rewrite process_value in Hv.
  destruct (main_loop_invariant self func w
              (fun m s t v =>
                 (forall c, In c (invocations t) ->
                            is_returned (outcome_of c) = true) ->
                 v = Returned tt ->
                 returns t = enumerate (results s)
                 /\ sleeps t = []
                 /\ failures t = []
                 /\ length (results s) = m
                 /\ forall path,
                      save_to_file self = Some path ->
                      truthy (Some path) = true ->
                      writes t
                      = map (fun ix => (batch_file path (fst ix + 1),
                                        json_dump (snd ix)))
                          (enumerate (results s))))
    as [m [_ [H Hend]]].
  - intros _ _. repeat split; try reflexivity.
  - intros i batch s t _ H r1 Hc Ev.
    assert (Hc1 : forall c, In c (invocations t) ->
                            is_returned (outcome_of c) = true).
    { intros c Hin. apply Hc. rewrite invocations_app.
      apply in_or_app. now left. }
    assert (Hc2 : forall c, In c (invocations (trace r1)) ->
                            is_returned (outcome_of c) = true).
    { intros c Hin. apply Hc. rewrite invocations_app.
      apply in_or_app. now right. }
    destruct (H Hc1 eq_refl) as [H1 [H2 [H3 [Hlen H4]]]].
    destruct (process_batch_all_returned self func i batch s Hr Hc2)
      as [x [K0 [K1 [K2 [K3 [K4 [K6 K7]]]]]]].
    fold r1 in K0, K1, K2, K3, K4, K6, K7.
    assert (Kr : returns (trace r1) = [(i, x)])
      by (unfold returns; now rewrite K0).
    rewrite returns_app, sleeps_app, failures_app, H1, H2, H3, Kr, K3, K4.
    split; [|repeat split].
    + rewrite K1. unfold enumerate.
      now rewrite enumerate_from_snoc, Hlen.
    + rewrite K1, length_app. simpl. lia.
    + intros path Hp Ht. rewrite writes_app, (H4 path Hp Ht), K6, K1.
      unfold enumerate. rewrite enumerate_from_snoc, map_app.
      rewrite K7 in Ev. unfold persist_value in Ev. rewrite Hp, Ht in Ev.
      apply save_value_returned in Ev. destruct Ev as [Eo Eu].
      unfold persist_events, save_events. rewrite Hp, Ht, Eo, Eu.
      simpl. now rewrite Hlen.
  - destruct (value (main_loop json_dump platform self func w))
      as [[]|e]; [|discriminate].
    injection Hv as <-. specialize (Hend eq_refl).
    destruct (H Hall eq_refl) as [H1 [H2 [H3 [Hlen H4]]]].
    rewrite Hend in Hlen.
    split; [exact Hlen|]. split; [exact H1|].
    split; [exact H2|]. split; [exact H3|].
    intros path Hp Ht. split; [now apply H4|].
    rewrite (H4 path Hp Ht), map_map. cbn [fst].
    rewrite <- Hlen. unfold enumerate.
    now rewrite <- (map_fst_enumerate_from _ 0), map_map.
Qed.

(** *** An empty input *)

(** On an empty input nothing happens but the final print: no call, no
    sleep, no file, no failure report, whatever the configuration, and the
    empty list is returned. *)
Theorem process_empty_input self func w :
  iterable self = [] ->
  process json_dump platform self func w
  = {| trace := [PrintComplete]; final := start w; value := Returned [] |}.
Proof.
  intros H. unfold process. rewrite H. now destruct (progress self).
Qed.

(** *** The diagnostics *)

Lemma retry_loop_diagnostics self func i batch attempts s :
  let r := retry_loop platform self func i batch attempts s in
  announcements (trace r) = map announced (invocations (trace r))
  /\ error_reports (trace r) = flat_map (reported self) (invocations (trace r))
  /\ ~ In PrintComplete (trace r).
Proof.
  revert s; induction attempts as [|a attempts IH]; intros s.
  - simpl. tauto.
  - destruct (func (world s) batch) as [[r0|e] w] eqn:E.
    + rewrite (retry_loop_returned self func i batch a attempts s r0 w E).
      repeat split. intros [F|[F|[]]]; discriminate F.
    + destruct (sleep_error platform (retry_delay self)) as [e'|] eqn:Hsl.
      * rewrite (retry_loop_refused self func i batch a attempts s e w e'
                   E Hsl).
        repeat split. intros [F|[F|[F|[F|[]]]]]; discriminate F.
      * pose proof (retry_loop_raised self func i batch a attempts s e w
                      E Hsl) as Eq.
        cbv zeta in Eq. rewrite Eq; clear Eq. cbn [trace].
        destruct (IH {| results := results s; result := result s;
                        world := w |}) as [H1 [H2 H3]].
        unfold announcements, error_reports, invocations in *.
        cbn [flat_map app map]. unfold reported at 1. cbn [outcome_of app].
        rewrite H1, H2. repeat split.
        intros [F|[F|[F|[F|F]]]]; try discriminate F. exact (H3 F).
Qed.

Lemma process_batch_diagnostics self func i batch s :
  let r := process_batch json_dump platform self func i batch s in
  announcements (trace r) = map announced (invocations (trace r))
  /\ error_reports (trace r) = flat_map (reported self) (invocations (trace r))
  /\ ~ In PrintComplete (trace r).
Proof.
  intros r. unfold r. rewrite invocations_process_batch.
  pose proof (process_batch_split self func i batch s) as Eq.
  cbv zeta in Eq. rewrite Eq; clear Eq. cbn [trace].
  destruct (retry_loop_diagnostics self func i batch
              (range (retries self + 1)) s) as [H1 [H2 H3]].
  destruct (batch_tail_silent self i
              (retry_loop platform self func i batch
                 (range (retries self + 1)) s)) as [_ [_ [Ta [Te Tc]]]].
  unfold announcements, error_reports in *.
  rewrite !flat_map_app, H1, H2, Ta, Te, !app_nil_r.
  repeat split. intros F. apply in_app_or in F. tauto.
Qed.

(** Every call is announced, with the batch and the attempt numbered from
    1, and nothing else is; every exception a call raises is reported, with
    the retry delay, the one of the last attempt included. *)
Theorem diagnostics_follow_the_calls self func w :
  let r := process json_dump platform self func w in
  announcements (trace r)
  = map (fun c => (index c + 1, attempt c + 1)) (invocations (trace r))
  /\ error_reports (trace r)
     = flat_map (fun c => match outcome_of c with
                          | Returned _ => []
                          | Raised e => [(e, retry_delay self)]
                          end) (invocations (trace r)).
Proof.
  intros r. unfold r; clear r.
  assert (Hmain :
    announcements (trace (main_loop json_dump platform self func w))
    = map announced
        (invocations (trace (main_loop json_dump platform self func w)))
    /\ error_reports (trace (main_loop json_dump platform self func w))
       = flat_map (reported self)
           (invocations (trace (main_loop json_dump platform self func w)))).
  { destruct (main_loop_invariant self func w
                (fun _ _ t _ =>
                   announcements t = map announced (invocations t)
                   /\ error_reports t
                      = flat_map (reported self) (invocations t)))
      as [m [_ [H _]]].
    - now split.
    - intros i batch s t _ [H1 H2] r1.
      destruct (process_batch_diagnostics self func i batch s)
        as [K1 [K2 _]].
      fold r1 in K1, K2.
      unfold announcements, error_reports in *.
      rewrite invocations_app, !flat_map_app, map_app, H1, H2, K1, K2.
      now split.
    - exact H. }
  rewrite invocations_process. destruct Hmain as [H1 H2].
  destruct (value (main_loop json_dump platform self func w))
    as [[]|e] eqn:Ev.
  - rewrite (process_returned _ _ _ Ev). cbn [trace].
    unfold announcements, error_reports in *.
    rewrite !flat_map_app, H1, H2. simpl. now rewrite !app_nil_r.
  - rewrite (process_raised _ _ _ _ Ev). cbn [trace]. now split.
Qed.

(** *** The final print *)

(** [Processing complete.] is printed exactly when [process] returns, and
    then it is the last event and is printed once. *)
Theorem completion_printed_iff_returned self func w :
  let r := process json_dump platform self func w in
  ((exists rs, value r = Returned rs) <-> In PrintComplete (trace r))
  /\ forall rs, value r = Returned rs ->
       exists t', trace r = t' ++ [PrintComplete] /\ ~ In PrintComplete t'.
Proof.
  intros r. unfold r; clear r.
  assert (Hno : ~ In (PrintComplete (Item := Item) (Result := Result)
                        (Delay := Delay))
                  (trace (main_loop json_dump platform self func w))).
  { destruct (main_loop_invariant self func w
                (fun _ _ t _ => ~ In PrintComplete t)) as [m [_ [H _]]].
    - simpl. tauto.
    - intros i batch s t _ H r1 Hin. apply in_app_or in Hin.
      destruct Hin as [Hin|Hin]; [tauto|].
      destruct (process_batch_diagnostics self func i batch s)
        as [_ [_ K]]. now apply K.
    - exact H. }
  destruct (value (main_loop json_dump platform self func w))
    as [[]|e] eqn:Ev.
  - rewrite (process_returned _ _ _ Ev). cbn [trace value]. split.
    + split; [intros _|eauto]. apply in_or_app. right. now left.
    + intros rs _.
      now exists (trace (main_loop json_dump platform self func w)).
  - rewrite (process_raised _ _ _ _ Ev). cbn [trace value]. split.
    + split; [intros [rs F]; discriminate F | tauto].
    + intros rs F. discriminate F.
Qed.

End ProcessorFacts.

(** ** Sample runs *)

Local Open Scope string_scope.





Lemma nonpositive_batch_size_witness :
  let self := __init__ [1; 2; 3] (-2) false None 0 1 in
  (batch_size self <= 0)%Z
  /\ get_batches (batch_size self) (iterable self) = [[1; 2; 3]]
  /\ exists o,
       In (Call 0 0 [1; 2; 3] o)
          (trace (process json_dump_int reliable self sum_batch tt)).
Proof.
  intros self.
  assert (H0 : (batch_size self <= 0)%Z) by (simpl; lia).
  destruct (nonpositive_batch_size nat Z unit nat json_dump_int reliable self
              sum_batch tt H0) as [E H].
  split; [exact H0|]. split; [exact E|].
  apply H; simpl; [discriminate | lia].
Defined.

Lemma saved_to_batch_file_witness :
  let self := __init__ (seq 1 22) 5 true (Some "output.json") 2 1 in
  let r := process json_dump_int reliable self sum_batch tt in
  save_to_file self = Some ("output" ++ "." ++ "json")
  /\ contains "." "json" = false
  /\ contains "/" "json" = false
  /\ all_dots (basename "output") = false
  /\ open_error (reliable (Result := Z) (Delay := nat))
       ("output" ++ "_batch" ++ str (4 + 1) ++ "." ++ "json") = None
  /\ dump_error (reliable (Delay := nat))
       ("output" ++ "_batch" ++ str (4 + 1) ++ "." ++ "json") 43%Z = None
  /\ In (Call 4 0 [21; 22] (Returned 43%Z)) (trace r)
  /\ exists t1 t2,
       trace r = (t1 ++ [Call 4 0 [21; 22] (Returned 43%Z);
                         WriteFile "output_batch5.json" "43";
                         PrintSaved 5 "output_batch5.json"] ++ t2)%list.
Proof.
  intros self r.
  assert (E : exists t1 t2,
            trace r = (t1 ++ Call 4 0 [21; 22] (Returned 43%Z) :: t2)%list).
  { exists (firstn 17 (trace r)), (skipn 18 (trace r)).
    vm_compute. reflexivity. }
  assert (H : In (Call 4 0 [21; 22] (Returned 43%Z)) (trace r)).
  { destruct E as [t1 [t2 ->]]. apply in_or_app. right. now left. }
  assert (Hd : contains "." "json" = false) by (vm_compute; reflexivity).
  assert (Hs : contains "/" "json" = false) by (vm_compute; reflexivity).
  assert (Hb : all_dots (basename "output") = false)
    by (vm_compute; reflexivity).
  assert (Hp : save_to_file self = Some ("output" ++ "." ++ "json"))
    by (vm_compute; reflexivity).
  assert (Ho : open_error (reliable (Result := Z) (Delay := nat))
                 ("output" ++ "_batch" ++ str (4 + 1) ++ "." ++ "json")
               = None) by reflexivity.
  assert (Hu : dump_error (reliable (Delay := nat))
                 ("output" ++ "_batch" ++ str (4 + 1) ++ "." ++ "json") 43%Z
               = None) by reflexivity.
  repeat (split; [assumption|]).
  exact (saved_to_batch_file nat Z unit nat json_dump_int reliable self
           sum_batch tt "output" "json" 4 0 [21; 22] 43%Z Hp Hd Hs Hb Ho Hu
           H).
Defined.

(** C8, as stated, fails.  With the base path [results/out.json] in a
    working directory that has no subdirectory, the call on the first batch
    returns but [open] raises [OSError]: no file is written for the batch
    and the run ends there.  And with the base path [out.json] and a
    function that returns a set, the file of the first batch is opened but
    [json.dump] raises [TypeError]: the file does not hold the result. *)
Lemma saved_to_batch_file_counterexample :
  let self := __init__ [1; 2] 1 false (Some "results/out.json") 0 0%Z in
  let r := process json_dump_int (posix json_error_int) self sum_batch tt in
  let self' := __init__ [1; 2; 3] 3 false (Some "out.json") 0 0%Z in
  let r' := process json_dump_py (posix json_error_py) self' as_set tt in
  (save_to_file self = Some ("results/out" ++ "." ++ "json")
   /\ contains "." "json" = false
   /\ contains "/" "json" = false
   /\ all_dots (basename "results/out") = false)
  /\ (trace r = [PrintProcessing 1 1; Call 0 0 [1] (Returned 1%Z)]
      /\ writes (trace r) = []
      /\ value r = Raised (OSError "No such file or directory"))
  /\ (trace r' = [PrintProcessing 1 1;
                  Call 0 0 [1; 2; 3] (Returned (PySet [1; 2; 3]));
                  DumpFailed "out_batch1.json"]
      /\ writes (trace r') = []
      /\ value r'
         = Raised (TypeError "Object of type set is not JSON serializable")).
Proof. repeat split; vm_compute; reflexivity. Qed.

(** C7, as stated, fails: with the batch size [0] nothing is rejected, the
    three items come out as one batch, and the processing function is
    called on it and its result returned. *)
Lemma nonpositive_batch_size_counterexample :
  let self := __init__ [1; 2; 3] 0 false None 0 1 in
  let r := process json_dump_int reliable self sum_batch tt in
  (batch_size self <= 0)%Z
  /\ get_batches (batch_size self) (iterable self) = [[1; 2; 3]]
  /\ invocations (trace r) = [Invocation 0 0 [1; 2; 3] (Returned 6%Z)]
  /\ value r = Returned [6%Z].
Proof.
  repeat split; try (vm_compute; reflexivity). vm_compute. discriminate.
Qed.

(** C1 at a failing input: two batches [[1]] and [[2]], no retry, the sink
    [out.json], a function that raises on [[2]], on a platform where no
    library call fails.  Batch 2 has no call that returned and is reported
    failed, yet [out_batch2.json] is written, with the result of
    batch 1. *)
Theorem failed_batch_is_persisted :
  let self := __init__ [1; 2] 1 false (Some "out.json") 0 1 in
  let r := process json_dump_int reliable self (fail_on [2]) tt in
  succeeded 1 (trace r) = false
  /\ failures (trace r) = [(2, 0%Z)]
  /\ writes (trace r) = [("out_batch1.json", "1"); ("out_batch2.json", "1")]
  /\ value r = Returned [1%Z].
Proof. repeat split; vm_compute; reflexivity. Qed.

(** C2 at a failing input: two batches [[1]] and [[2]], no retry, the sink
    [out.json], a function that raises on [[1]], on a platform where no
    library call fails.  Once the retries of batch 1 are exhausted the run
    reads the unbound [result] and raises [UnboundLocalError] to the
    caller; batch 2 is never attempted. *)
Theorem exhausted_first_batch_raises :
  let self := __init__ [1; 2] 1 false (Some "out.json") 0 1 in
  let r := process json_dump_int reliable self (fail_on [1]) tt in
  failures (trace r) = [(1, 0%Z)]
  /\ value r = Raised (UnboundLocalError "result")
  /\ calls_of 1 (trace r) = [].
Proof. repeat split; vm_compute; reflexivity. Qed.

(** C5 at a failing input: three batches of one item, two retries, the sink
    [out.json], a function that raises on the first batch only, on a
    platform where no library call fails.  The function is called three
    times for the first batch and the failure is reported once, but the run
    then raises [UnboundLocalError]: the other batches are not processed
    and no list is returned. *)
Theorem exhausted_first_batch_stops_run :
  let self := __init__ [1; 2; 3] 1 false (Some "out.json") 2 1 in
  let r := process json_dump_int reliable self (fail_on [1]) tt in
  length (calls_of 0 (trace r)) = 3
  /\ failures (trace r) = [(1, 2%Z)]
  /\ value r = Raised (UnboundLocalError "result")
  /\ calls_of 1 (trace r) = []
  /\ calls_of 2 (trace r) = [].
Proof. repeat split; vm_compute; reflexivity. Qed.

(** C10 at a failing input: two batches, [retries = -1], the sink
    [out.json], on a platform where no library call fails.  No call is made
    and batch 1 is reported failed, but the run then raises
    [UnboundLocalError]: batch 2 is not reported and no list is
    returned. *)
Theorem negative_retries_with_sink_raises :
  let self := __init__ [1; 2] 1 false (Some "out.json") (-1) 1 in
  let r := process json_dump_int reliable self sum_batch tt in
  invocations (trace r) = []
  /\ failures (trace r) = [(1, (-1)%Z)]
  /\ value r = Raised (UnboundLocalError "result").
Proof. repeat split; vm_compute; reflexivity. Qed.

(** Run through a [BatchProcessor], whatever its batch size and progress
    flag, for any retry count that is not negative, and with no sink or a
    sink to which every write succeeds, the [process_batch] of [example.py]
    gives one dictionary per batch, and the [processed] lists put end to
    end are the items of the input, each incremented, in order. *)
Theorem example_increments_every_item (Delay : Type)
    (json_dump : ExamplePy.result_dict -> string)
    (platform : Platform ExamplePy.result_dict Delay)
    (self : BatchProcessor Z Delay) (printed : list (list Z)) :
  (0 <= retries self)%Z ->
  sink_reliable platform self ->
  exists rs,
    value (process json_dump platform self ExamplePy.process_batch printed)
    = Returned rs
    /\ length rs = length (get_batches (batch_size self) (iterable self))
    /\ Forall (fun d => ExamplePy.status d = "success") rs
    /\ concat (map ExamplePy.processed rs)
       = map (fun i => (i + 1)%Z) (iterable self).
Proof.
  intros Hr Hrel.
  pose proof (process_map_value Z ExamplePy.result_dict (list (list Z)) Delay
                json_dump platform self ExamplePy.process_batch printed
                (fun batch =>
                   {| ExamplePy.processed := map (fun i => (i + 1)%Z) batch;
                      ExamplePy.status := "success" |})
                Hr Hrel (fun _ _ => eq_refl)) as Hv.
  eexists. split; [exact Hv|]. split; [apply length_map|]. split.
  - apply Forall_forall. intros d Hd. apply in_map_iff in Hd.
    now destruct Hd as [b [<- _]].
  - rewrite map_map. simpl. rewrite <- concat_map. f_equal.
    apply (get_batches_from_concat (batch_size self) (iterable self) []).
Qed.

Lemma example_increments_every_item_witness :
  let self := __init__ (map Z.of_nat (seq 1 22)) 5 true
                (Some "output.json") 2 1 in
  (0 <= retries self)%Z
  /\ sink_reliable (reliable (Result := ExamplePy.result_dict)) self
  /\ exists rs,
       value (process (fun _ => "") reliable self ExamplePy.process_batch [])
       = Returned rs
       /\ length rs = 5
       /\ concat (map ExamplePy.processed rs)
          = map Z.of_nat (seq 2 22).
Proof.
  intros self.
  assert (H0 : (0 <= retries self)%Z) by (simpl; lia).
  assert (Hrel : sink_reliable (reliable (Result := ExamplePy.result_dict))
                   self)
    by (right; split; intros; reflexivity).
  split; [exact H0|]. split; [exact Hrel|].
  destruct (example_increments_every_item nat (fun _ => "") reliable self []
              H0 Hrel)
    as [rs [Hv [Hl [_ Hc]]]].
  exists rs. split; [exact Hv|]. split.
  - rewrite Hl. vm_compute. reflexivity.
  - rewrite Hc. vm_compute. reflexivity.
Defined.

(** ** More sample runs *)

Lemma results_are_the_returns_witness :
  let self := __init__ [1; 2; 3] 1 false None 0 1 in
  let r := process json_dump_int reliable self (fail_on [2]) tt in
  value r = Returned [1%Z; 3%Z]
  /\ [1%Z; 3%Z] = map snd (returns (trace r))
  /\ StronglySorted lt (map fst (returns (trace r))).
Proof.
  intros self r.
  assert (H : value r = Returned [1%Z; 3%Z]) by (vm_compute; reflexivity).
  split; [exact H|].
  destruct (results_are_the_returns nat Z unit nat json_dump_int reliable self
              (fail_on [2]) tt [1%Z; 3%Z] H) as [H1 [H2 _]].
  split; [exact H1 | exact H2].
Defined.

Lemma every_batch_accounted_witness :
  let self := __init__ [1; 2; 3] 1 false None 0 1 in
  let r := process json_dump_int reliable self (fail_on [2]) tt in
  value r = Returned [1%Z; 3%Z]
  /\ length [1%Z; 3%Z] + length (failures (trace r))
     = length (get_batches (batch_size self) (iterable self)).
Proof.
  intros self r.
  assert (H : value r = Returned [1%Z; 3%Z]) by (vm_compute; reflexivity).
  split; [exact H|].
  exact (proj1 (every_batch_accounted nat Z unit nat json_dump_int reliable
                  self (fail_on [2]) tt [1%Z; 3%Z] H)).
Defined.

Lemma only_exception_is_unbound_result_witness :
  let self := __init__ [1; 2] 1 false (Some "out.json") 0 1 in
  let r := process json_dump_int reliable self (fail_on [1]) tt in
  sleep_error (reliable (Result := Z)) (retry_delay self) = None
  /\ writes_succeed (reliable (Result := Z) (Delay := nat))
  /\ value r = Raised (UnboundLocalError "result")
  /\ truthy (save_to_file self) = true
  /\ returns (trace r) = [].
Proof.
  intros self r.
  assert (Hsl : sleep_error (reliable (Result := Z)) (retry_delay self)
                = None) by reflexivity.
  assert (Hws : writes_succeed (reliable (Result := Z) (Delay := nat)))
    by (split; intros; reflexivity).
  assert (H : value r = Raised (UnboundLocalError "result"))
    by (vm_compute; reflexivity).
  split; [exact Hsl|]. split; [exact Hws|]. split; [exact H|].
  destruct (only_exception_is_unbound_result nat Z unit nat json_dump_int
              reliable self (fail_on [1]) tt _ Hsl Hws H) as [_ [H1 [H2 _]]].
  split; [exact H1 | exact H2].
Defined.

Lemma exceptions_of_process_witness :
  let self := __init__ [1; 2] 1 false (Some "out.json") 0 0%Z in
  let r := process json_dump_py (posix json_error_py) self as_set tt in
  let e := TypeError "Object of type set is not JSON serializable" in
  value r = Raised e
  /\ dump_error (posix json_error_py) "out_batch1.json" (PySet [1]) = Some e
  /\ ((e = UnboundLocalError "result"
       /\ truthy (save_to_file self) = true
       /\ returns (trace r) = [])
      \/ sleep_error (posix json_error_py) (retry_delay self) = Some e
      \/ exists path n,
           save_to_file self = Some path
           /\ truthy (Some path) = true
           /\ 1 <= n <= length (get_batches (batch_size self) (iterable self))
           /\ (open_error (posix json_error_py) (batch_file path n) = Some e
               \/ exists i x,
                    In (i, x) (returns (trace r))
                    /\ dump_error (posix json_error_py) (batch_file path n) x
                       = Some e)).
Proof.
  intros self r e.
  assert (H : value r = Raised e) by (vm_compute; reflexivity).
  split; [exact H|]. split; [reflexivity|].
  exact (exceptions_of_process nat py_value unit Z json_dump_py
           (posix json_error_py) self as_set tt e H).
Defined.

Lemma no_sink_no_write_witness :
  let self := __init__ [1; 2; 3] 2 false (Some "") 1 1 in
  truthy (save_to_file self) = false
  /\ writes (trace (process json_dump_int reliable self flaky 0)) = [].
Proof.
  intros self.
  assert (H : truthy (save_to_file self) = false) by reflexivity.
  split; [exact H|].
  exact (no_sink_no_write nat Z nat nat json_dump_int reliable self flaky 0
           H).
Defined.

Lemma failed_batch_writes_latest_result_witness :
  let self := __init__ [1; 2] 1 false (Some "out.json") 0 1 in
  let r := process json_dump_int reliable self (fail_on [2]) tt in
  let t1 := firstn 8 (trace r) in
  let t2 := skipn 9 (trace r) in
  save_to_file self = Some "out.json"
  /\ truthy (Some "out.json") = true
  /\ open_error (reliable (Result := Z) (Delay := nat))
       (batch_file "out.json" 2) = None
  /\ (forall x, last_result t1 = Some x ->
                dump_error (reliable (Delay := nat))
                  (batch_file "out.json" 2) x = None)
  /\ trace r = (t1 ++ PrintFailed 2 0 :: t2)%list
  /\ last_result t1 = Some 1%Z
  /\ exists t2',
       t2 = WriteFile "out_batch2.json" "1"
            :: PrintSaved 2 "out_batch2.json" :: t2'.
Proof.
  intros self r t1 t2.
  assert (H0 : save_to_file self = Some "out.json") by reflexivity.
  assert (H1 : truthy (Some "out.json") = true) by reflexivity.
  assert (Ho : open_error (reliable (Result := Z) (Delay := nat))
                 (batch_file "out.json" 2) = None) by reflexivity.
  assert (Hd : forall x, last_result t1 = Some x ->
                         dump_error (reliable (Delay := nat))
                           (batch_file "out.json" 2) x = None)
    by reflexivity.
  assert (H2 : trace r = (t1 ++ PrintFailed 2 0 :: t2)%list)
    by (vm_compute; reflexivity).
  assert (H3 : last_result t1 = Some 1%Z) by (vm_compute; reflexivity).
  assert (Hf : batch_file "out.json" 2 = "out_batch2.json")
    by (vm_compute; reflexivity).
  assert (Hj : json_dump_int 1 = "1") by (vm_compute; reflexivity).
  repeat (split; [assumption|]).
  pose proof (failed_batch_writes_latest_result nat Z unit nat json_dump_int
                reliable self (fail_on [2]) tt "out.json" t1 2 0%Z t2
                H0 H1 Ho Hd H2) as H.
  rewrite H3, Hf, Hj in H. exact H.
Defined.

Lemma all_succeed_files_witness :
  let self := __init__ [1; 2; 3] 2 false (Some "out.json") 0 1 in
  let r := process json_dump_int reliable self sum_batch tt in
  (0 <= retries self)%Z
  /\ (forall c, In c (invocations (trace r)) ->
                is_returned (outcome_of c) = true)
  /\ value r = Returned [3%Z; 3%Z]
  /\ length [3%Z; 3%Z]
     = length (get_batches (batch_size self) (iterable self))
  /\ returns (trace r) = [(0, 3%Z); (1, 3%Z)]
  /\ failures (trace r) = []
  /\ writes (trace r) = [("out_batch1.json", "3"); ("out_batch2.json", "3")].
Proof.
  intros self r.
  assert (H0 : (0 <= retries self)%Z) by (simpl; lia).
  assert (E : forallb (fun c => is_returned (outcome_of c))
                (invocations (trace r)) = true)
    by (vm_compute; reflexivity).
  assert (H1 : forall c, In c (invocations (trace r)) ->
                         is_returned (outcome_of c) = true)
    by (apply forallb_forall; exact E).
  assert (H2 : value r = Returned [3%Z; 3%Z]) by (vm_compute; reflexivity).
  assert (Hp : save_to_file self = Some "out.json") by reflexivity.
  assert (Ht : truthy (Some "out.json") = true) by reflexivity.
  assert (Ew : map (fun ix : nat * Z =>
                      (batch_file "out.json" (fst ix + 1),
                       json_dump_int (snd ix)))
                 (enumerate [3%Z; 3%Z])
               = [("out_batch1.json", "3"); ("out_batch2.json", "3")])
    by (vm_compute; reflexivity).
  destruct (all_succeed_files nat Z unit nat json_dump_int reliable self
              sum_batch tt [3%Z; 3%Z] H0 H1 H2) as [K1 [K2 [_ [K3 K4]]]].
  destruct (K4 "out.json" Hp Ht) as [K5 _].
  repeat (split; [assumption|]). exact (eq_trans K5 Ew).
Defined.

Lemma process_without_sink_witness :
  let self := __init__ [1; 2] 1 false None 0 1 in
  let r := process json_dump_int reliable self (fail_on [1]) tt in
  truthy (save_to_file self) = false
  /\ sleep_error (reliable (Result := Z)) (retry_delay self) = None
  /\ exists rs, value r = Returned rs.
Proof.
  intros self r.
  assert (H : truthy (save_to_file self) = false) by reflexivity.
  assert (Hsl : sleep_error (reliable (Result := Z)) (retry_delay self)
                = None) by reflexivity.
  split; [exact H|]. split; [exact Hsl|].
  exact (proj1 (process_without_sink nat Z unit nat json_dump_int reliable
                  self (fail_on [1]) tt H Hsl)).
Defined.

Lemma process_negative_retries_witness :
  let self := __init__ [1; 2] 1 false None (-1) 1 in
  let r := process json_dump_int reliable self sum_batch tt in
  truthy (save_to_file self) = false
  /\ (retries self < 0)%Z
  /\ invocations (trace r) = []
  /\ value r = Returned [].
Proof.
  intros self r.
  assert (H0 : truthy (save_to_file self) = false) by reflexivity.
  assert (H1 : (retries self < 0)%Z) by (simpl; lia).
  split; [exact H0|]. split; [exact H1|].
  destruct (process_negative_retries nat Z unit nat json_dump_int reliable
              self sum_batch tt H0 H1) as [K1 [_ K3]].
  split; [exact K1 | exact K3].
Defined.


Lemma process_total_function_witness :
  let self := __init__ [1; 2; 3] 2 false (Some "out.json") 0 1 in
  (0 <= retries self)%Z
  /\ sink_reliable (reliable (Result := Z)) self
  /\ (forall (w : unit) b,
        fst (sum_batch w b) = Returned (Z.of_nat (list_sum b)))
  /\ value (process json_dump_int reliable self sum_batch tt)
     = Returned (map (fun b => Z.of_nat (list_sum b))
                   (get_batches (batch_size self) (iterable self))).
Proof.
  intros self.
  assert (H0 : (0 <= retries self)%Z) by (simpl; lia).
  assert (Hrel : sink_reliable (reliable (Result := Z)) self)
    by (right; split; intros; reflexivity).
  assert (H1 : forall (w : unit) b,
             fst (sum_batch w b) = Returned (Z.of_nat (list_sum b)))
    by reflexivity.
  split; [exact H0|]. split; [exact Hrel|]. split; [exact H1|].
  exact (process_total_function nat Z unit nat json_dump_int reliable self
           sum_batch tt (fun b => Z.of_nat (list_sum b)) H0 Hrel H1).
Defined.

Lemma process_empty_input_witness :
  let self := __init__ (@nil nat) 0 true (Some "out.json") (-1) 1 in
  iterable self = []
  /\ process json_dump_int reliable self sum_batch tt
     = {| trace := [PrintComplete]; final := start tt;
          value := Returned [] |}.
Proof.
  intros self.
  assert (H : iterable self = []) by reflexivity.
  split; [exact H|].
  exact (process_empty_input nat Z unit nat json_dump_int reliable self
           sum_batch tt H).
Defined.

Lemma batch_file_without_extension_witness :
  contains "." "results/out" = false
  /\ batch_file "results/out" 3 = "results/out" ++ "_batch" ++ str 3.
Proof.
  assert (H : contains "." "results/out" = false) by (vm_compute; reflexivity).
  split; [exact H|].
  exact (batch_file_without_extension "results/out" 3 H).
Defined.
